(** * TfRLTrainer: the TensorFlow binding of the RLlib trainer

    A shallow embedding of [rllib/core/rl_trainer/tf/tf_rl_trainer.py].

    The file is glue code: every method of [TfRLTrainer] sequences calls
    into collaborators (the TensorFlow runtime, the [RLTrainer] base
    class, the multi-agent module, numpy).  The embedding keeps the
    collaborators abstract, as the operations of a [Framework] and of a
    record of [Collaborators], and models what the file itself decides:
    the order of the calls, the context ([tf.GradientTape],
    [strategy.scope]) each call is made in, the data passed from one
    call to the next, and the exceptions the file's own code raises.

    Methods are computations in a state-and-exception monad [M].  The
    state holds the trainer object ([self]), the runtime state of the
    framework, the stack of open [with] blocks and a log of the calls
    made so far. *)

From stdpp Require Import gmap strings list fin_maps.

Local Open Scope Z_scope.

(** ** Plain data *)

(** A [ModuleID] is a [string].  A [ParamRef], the hashable identity
    [param.ref()] of a variable, is a [positive]. *)

Inductive DType := float32 | float64 | int32 | int64 | bool_.

(** Values of the [optimizer_config] mapping ([Mapping[str, Any]]).  A
    float literal is kept as written: [1e-3] is [PyFloat 1 (-3)]. *)
Inductive PyValue :=
  | PyFloat (mantissa exponent : Z)
  | PyInt (n : Z)
  | PyStr (s : string)
  | PyNone.

Inductive OptimizerCls :=
  | Adam                              (* tf.keras.optimizers.Adam *)
  | OptimizerNamed (name : string).   (* any other optimizer class *)

(** An optimizer object, as far as this file constructs it:
    [optimizer_cls(learning_rate=lr)]. *)
Record Optimizer := {
  opt_cls : OptimizerCls;
  learning_rate : PyValue;
}.

(** Keys of the dictionaries the file subscripts. *)
Inductive Key :=
  | KStr (s : string)
  | KRef (r : positive).

(** Exceptions raised by the code of this file. *)
Inductive exn :=
  | ValueError (msg : string)
  | KeyError (k : Key)
  | TypeError (msg : string)
  | AttributeError (attr : string).

(** [self._update_fn]: the bound method, or its [tf.function] wrapper. *)
Inductive UpdateFn :=
  | Eager        (* self._do_update_fn *)
  | TfFunction.  (* tf.function(self._do_update_fn) *)

Definition TOTAL_LOSS_KEY : string := "total_loss".

Definition batch_keys_msg : string :=
  "Batch keys must match module keys. RLTrainer does not currently support training of only some modules and not others".

(** ** The framework *)

(** The types and pure operations of TensorFlow, numpy and the module
    classes that the file uses without defining them. *)
Class Framework := {
  Tensor : Type;          (* tf.Tensor *)
  NdArray : Type;         (* numpy.ndarray, in host memory *)
  Scalar : Type;          (* the result of ndarray.mean() and np.mean *)
  TfVariable : Type;        (* tf.Variable *)
  RLModule : Type;
  FwdOut : Type;          (* the output of forward_train *)
  MirroredStrategy : Type;        (* tf.distribute.MultiWorkerMirroredStrategy *)
  TfState : Type;         (* values of the variables, optimizer slots *)
  ModuleCls : Type;
  ModuleKwargs : Type;
  SetOptimizerFn : Type;
  (* tf.convert_to_tensor(value, dtype=...) *)
  convert_to_tensor : NdArray → DType → Tensor;
  tensor_dtype : Tensor → DType;
  convert_to_tensor_dtype v d : tensor_dtype (convert_to_tensor v d) = d;
  (* one leaf of convert_to_numpy *)
  to_numpy : Tensor → NdArray;
  (* ndarray.mean() *)
  array_mean : NdArray → Scalar;
  (* np.mean of a list of scalars *)
  np_mean : list Scalar → Scalar;
  (* module.trainable_variables *)
  trainable_variables : RLModule → list TfVariable;
  (* module.get_weights() *)
  get_weights : RLModule → TfState → list NdArray;
  (* variable.ref() *)
  variable_ref : TfVariable → positive;
}.

Section Trainer.
Context `{Framework}.

(** ** Data of the trainer *)

(** A [SampleBatch] is a dictionary of columns; a [MultiAgentBatch]
    holds one per policy. *)
Record MultiAgentBatch := {
  policy_batches : gmap string (gmap string NdArray);
}.

(** Modelled from the spec: [NestedDict] (ray.rllib.utils.nested_dict) is
    not part of the sources.  [NestedDict(d).items()] walks the leaves of
    [d] with the tuple of keys leading to each, and [nd[key] = v] with
    such a tuple replaces that leaf; so a [NestedDict] is a finite map
    from key tuples to leaves. *)
Abbreviation NestedDict A := (gmap (string * string) A).

Definition NestedDict_of {A} (d : gmap string (gmap string A)) : NestedDict A :=
  map_uncurry (M1 := gmap string) (M2 := gmap string)
    (M12 := gmap (string * string)) d.

(** The loss: [compute_loss] returns a tensor or a mapping. *)
Inductive LossOut :=
  | LossTensor (t : Tensor)
  | LossMap (m : gmap string Tensor).

Inductive LossNumpy :=
  | LossArray (a : NdArray)
  | LossArrayMap (m : gmap string NdArray).

(** The dictionary returned by [_do_update_fn]; its three keys are
    literals. *)
Record UpdateOuts := {
  out_loss : LossOut;
  out_fwd_out : FwdOut;
  out_post_processed_gradients : gmap positive Tensor;
}.

(** Values of the dictionary returned by [compile_results]. *)
Inductive ResultValue :=
  | RLoss (l : LossNumpy)
  | RScalar (x : Scalar)
  | RMeanWeights (ws : gmap string Scalar).

Record AddModuleArgs := {
  arg_module_id : string;
  arg_module_cls : ModuleCls;
  arg_module_kwargs : ModuleKwargs;
  arg_set_optimizer_fn : option SetOptimizerFn;
  arg_optimizer_cls : option OptimizerCls;
}.

(** The fields of [self]. *)
Record Trainer := {
  module_class : ModuleCls;
  module_kwargs : ModuleKwargs;
  _module : gmap string RLModule;                  (* MultiAgentRLModule *)
  _params : gmap positive TfVariable;                (* ParamDictType *)
  _optim_to_param : list (Optimizer * list positive);
  optimizer_config : gmap string PyValue;
  distributed : bool;
  in_test : bool;
  _enable_tf_function : bool;
  _update_fn : UpdateFn;
  strategy : option MirroredStrategy;
}.

Definition set_update_fn (f : UpdateFn) (tr : Trainer) : Trainer :=
  {| module_class := module_class tr; module_kwargs := module_kwargs tr;
     _module := _module tr; _params := _params tr;
     _optim_to_param := _optim_to_param tr;
     optimizer_config := optimizer_config tr;
     distributed := distributed tr; in_test := in_test tr;
     _enable_tf_function := _enable_tf_function tr;
     _update_fn := f; strategy := strategy tr |}.

Definition set_strategy (s : MirroredStrategy) (tr : Trainer) : Trainer :=
  {| module_class := module_class tr; module_kwargs := module_kwargs tr;
     _module := _module tr; _params := _params tr;
     _optim_to_param := _optim_to_param tr;
     optimizer_config := optimizer_config tr;
     distributed := distributed tr; in_test := in_test tr;
     _enable_tf_function := _enable_tf_function tr;
     _update_fn := _update_fn tr; strategy := Some s |}.

(** ** Calls, contexts and the log *)

(** What a gradient tape records: the calls that compute on tensors. *)
Inductive Op :=
  | OpForwardTrain (batch : NestedDict Tensor) (fwd_out : FwdOut)
  | OpComputeLoss (fwd_out : FwdOut) (batch : NestedDict Tensor) (loss : LossOut).

(** An open [with] block.  A tape carries what it has recorded so far. *)
Inductive Frame :=
  | FTape (recorded : list Op)
  | FScope (s : MirroredStrategy).

Inductive FrameKind :=
  | InTape
  | InScope (s : MirroredStrategy).

Definition kind (f : Frame) : FrameKind :=
  match f with
  | FTape _ => InTape
  | FScope s => InScope s
  end.

(** The calls into collaborators, with their arguments and result. *)
Inductive Call :=
  | CConvertToTensor (key : string * string) (value : NdArray) (dtype : DType)
  | COp (op : Op)
  | CTapeGradient (tape : list Op) (target : Tensor)
      (sources : gmap positive TfVariable) (grads : gmap positive Tensor)
  | COnAfterComputeGradients (grads_in grads_out : gmap positive Tensor)
  | COptimizerApplyGradients (optim : Optimizer)
      (grads_and_vars : list (Tensor * TfVariable))
  | CMultiWorkerMirroredStrategy (s : MirroredStrategy)
  | CMakeModule (module : gmap string RLModule)
  | CSuperAddModule (args : AddModuleArgs)
  | CSuperRemoveModule (module_id : string).

(** A log entry: the call and the [with] blocks open around it,
    innermost first. *)
Record Entry := {
  e_ctx : list FrameKind;
  e_call : Call;
}.

Record State := {
  self : Trainer;
  tfstate : TfState;
  ctx : list Frame;
  log : list Entry;
}.

Definition set_self (tr : Trainer) (st : State) : State :=
  {| self := tr; tfstate := tfstate st; ctx := ctx st; log := log st |}.
Definition set_tfstate (tf : TfState) (st : State) : State :=
  {| self := self st; tfstate := tf; ctx := ctx st; log := log st |}.
Definition set_ctx (c : list Frame) (st : State) : State :=
  {| self := self st; tfstate := tfstate st; ctx := c; log := log st |}.
Definition set_log (l : list Entry) (st : State) : State :=
  {| self := self st; tfstate := tfstate st; ctx := ctx st; log := l |}.

(** What a collaborator sees of the caller: the trainer object and the
    [with] blocks it is called in. *)
Record Env := {
  env_self : Trainer;
  env_ctx : list FrameKind;
}.

Definition env_of (st : State) : Env :=
  {| env_self := self st; env_ctx := kind <$> ctx st |}.

(** ** The monad *)

(** A Python exception leaves the mutations made before it in place, so
    the state is returned on both outcomes. *)
Definition M (A : Type) : Type := State → (exn + A) * State.

#[export] Instance M_ret : MRet M := λ A a st, (inr a, st).
#[export] Instance M_bind : MBind M := λ A B f m st,
  match m st with
  | (inl e, st') => (inl e, st')
  | (inr a, st') => f a st'
  end.

Definition raise {A} (e : exn) : M A := λ st, (inl e, st).

Definition get_self : M Trainer := λ st, (inr (self st), st).
Definition put_self (tr : Trainer) : M unit := λ st, (inr (), set_self tr st).

(** [d[key]] on a dictionary. *)
Definition getitem {K V} `{Countable K} (to_key : K → Key)
    (d : gmap K V) (key : K) : M V :=
  match d !! key with
  | Some v => mret v
  | None => raise (KeyError (to_key key))
  end.

(** A list comprehension whose element expression may raise. *)
Fixpoint comprehension {A B} (f : A → M B) (l : list A) : M (list B) :=
  match l with
  | [] => mret []
  | x :: l' => y ← f x; ys ← comprehension f l'; mret (y :: ys)
  end.

(** A [for] loop. *)
Fixpoint for_each {A} (l : list A) (body : A → M unit) : M unit :=
  match l with
  | [] => mret ()
  | x :: l' => body x;; for_each l' body
  end.

(** Appends a call to the log; an [Op] is also recorded by every open
    tape. *)
Definition tape_record (op : Op) (f : Frame) : Frame :=
  match f with
  | FTape recorded => FTape (recorded ++ [op])
  | FScope s => FScope s
  end.

Definition record (c : Call) (st : State) : State :=
  let st' :=
    match c with
    | COp op => set_ctx (tape_record op <$> ctx st) st
    | _ => st
    end in
  set_log (log st ++ [{| e_ctx := kind <$> ctx st; e_call := c |}]) st'.

(** [with tf.GradientTape() as tape: body].  The block is left on an
    exception too; [tape] is what was recorded inside. *)
Definition with_gradient_tape {A} (body : M A) : M (list Op * A) := λ st,
  let '(r, st') := body (set_ctx (FTape [] :: ctx st) st) in
  let tape := match ctx st' with FTape recorded :: _ => recorded | _ => [] end in
  (match r with inl e => inl e | inr a => inr (tape, a) end,
   set_ctx (tail (ctx st')) st').

(** [with strategy.scope(): body]. *)
Definition with_scope {A} (s : MirroredStrategy) (body : M A) : M A := λ st,
  let '(r, st') := body (set_ctx (FScope s :: ctx st) st) in
  (r, set_ctx (tail (ctx st')) st').

(** ** Collaborators *)

(** The stateful operations the file calls and does not define.  Each
    sees the caller through [Env] and acts on the framework state; the
    two higher-order ones, [tf.function] and [strategy.run], take the
    update function itself. *)
Record Collaborators := {
  (* self._module.forward_train(batch) *)
  forward_train : Env → NestedDict Tensor → TfState → FwdOut * TfState;
  (* self.compute_loss(fwd_out=fwd_out, batch=batch), abstract in RLTrainer *)
  compute_loss :
    Env → FwdOut → NestedDict Tensor → TfState → LossOut * TfState;
  (* tape.gradient(target, sources) *)
  tape_gradient :
    Env → list Op → Tensor → gmap positive TfVariable → TfState →
    gmap positive Tensor * TfState;
  (* self.on_after_compute_gradients(gradients), inherited *)
  on_after_compute_gradients :
    Env → gmap positive Tensor → TfState → gmap positive Tensor * TfState;
  (* optim.apply_gradients(zip(gradient_list, variable_list)) *)
  optimizer_apply_gradients :
    Env → Optimizer → list (Tensor * TfVariable) → TfState → unit * TfState;
  (* tf.distribute.MultiWorkerMirroredStrategy() *)
  MultiWorkerMirroredStrategy : Env → TfState → MirroredStrategy * TfState;
  (* self._make_module(), inherited *)
  make_module : Env → TfState → gmap string RLModule * TfState;
  (* super().add_module(...): the trainer it leaves behind *)
  super_add_module : Env → AddModuleArgs → TfState → Trainer * TfState;
  (* super().remove_module(module_id) *)
  super_remove_module : Env → string → TfState → Trainer * TfState;
  (* tf.function(fn) *)
  tf_function :
    (NestedDict Tensor → M UpdateOuts) → NestedDict Tensor → M UpdateOuts;
  (* strategy.run(fn, args=(batch,)) *)
  strategy_run :
    MirroredStrategy → (NestedDict Tensor → M UpdateOuts) →
    NestedDict Tensor → M UpdateOuts;
}.

Context (C : Collaborators).

(** A call into a collaborator: it runs on the framework state and is
    logged with its result. *)
Definition call {A} (f : Env → TfState → A * TfState) (c : A → Call) : M A :=
  λ st,
    let '(a, tf) := f (env_of st) (tfstate st) in
    (inr a, record (c a) (set_tfstate tf st)).

(** ** The methods of [TfRLTrainer] *)

(** [__init__].  The base class stores the arguments; the module, the
    parameters and the optimizers are filled in when the trainer is
    built, and [self.strategy] does not exist before
    [_make_distributed]. *)
Definition __init__ (module_class : ModuleCls) (module_kwargs : ModuleKwargs)
    (optimizer_config : gmap string PyValue)
    (distributed in_test enable_tf_function : bool) : Trainer :=
  {| module_class := module_class; module_kwargs := module_kwargs;
     _module := ∅; _params := ∅; _optim_to_param := [];
     optimizer_config := optimizer_config;
     distributed := distributed; in_test := in_test;
     _enable_tf_function := enable_tf_function;
     _update_fn := if enable_tf_function then TfFunction else Eager;
     strategy := None |}.

(** [loss["total_loss"]]: a mapping is looked up; a tensor cannot be
    subscripted with a string. *)
Definition loss_getitem (loss : LossOut) (key : string) : M Tensor :=
  match loss with
  | LossMap m => getitem KStr m key
  | LossTensor _ => raise (TypeError "tensor indices must be integers or slices")
  end.

Definition compute_gradients (loss : LossOut) (tape : list Op)
    : M (gmap positive Tensor) :=
  target ← loss_getitem loss "total_loss";
  tr ← get_self;
  grads ← call (λ env, tape_gradient C env tape target (_params tr))
               (CTapeGradient tape target (_params tr));
  mret grads.

(** The body of the loop of [apply_gradients]. *)
Definition apply_gradients_step (gradients : gmap positive Tensor)
    (item : Optimizer * list positive) : M unit :=
  let '(optim, param_ref_seq) := item in
  tr ← get_self;
  variable_list ← comprehension (getitem KRef (_params tr)) param_ref_seq;
  gradient_list ← comprehension (getitem KRef gradients) param_ref_seq;
  call (λ env, optimizer_apply_gradients C env optim
                 (zip gradient_list variable_list))
       (λ _, COptimizerApplyGradients optim (zip gradient_list variable_list)).

Definition apply_gradients (gradients : gmap positive Tensor) : M unit :=
  tr ← get_self;
  for_each (_optim_to_param tr) (apply_gradients_step gradients).

Definition _do_update_fn (batch : NestedDict Tensor) : M UpdateOuts :=
  '(tape, (fwd_out, loss)) ← with_gradient_tape (
    fwd_out ← call (λ env, forward_train C env batch)
                   (λ fwd_out, COp (OpForwardTrain batch fwd_out));
    loss ← call (λ env, compute_loss C env fwd_out batch)
                (λ loss, COp (OpComputeLoss fwd_out batch loss));
    let loss :=
      match loss with
      | LossTensor t => LossMap {[ "total_loss" := t ]}
      | LossMap _ => loss
      end in
    mret (fwd_out, loss));
  gradients ← compute_gradients loss tape;
  gradients ← call (λ env, on_after_compute_gradients C env gradients)
                   (COnAfterComputeGradients gradients);
  apply_gradients gradients;;
  mret {| out_loss := loss; out_fwd_out := fwd_out;
          out_post_processed_gradients := gradients |}.

(** The callable stored in [self._update_fn]. *)
Definition update_fn (f : UpdateFn) : NestedDict Tensor → M UpdateOuts :=
  match f with
  | Eager => _do_update_fn
  | TfFunction => tf_function C _do_update_fn
  end.

Definition configure_optimizers : M (list (list TfVariable * Optimizer)) :=
  tr ← get_self;
  let lr := default (PyFloat 1 (-3)) (optimizer_config tr !! "lr") in
  comprehension (λ key,
      m ← getitem KStr (_module tr) key;
      mret (trainable_variables m,
            {| opt_cls := Adam; learning_rate := lr |}))
    (map_to_list (_module tr)).*1.

(** The loop of [convert_batch_to_tf_tensor].  It overwrites every leaf
    of the [NestedDict] it walks; the leaves already converted are
    gathered in [converted], under their keys. *)
Fixpoint convert_items (items : list ((string * string) * NdArray))
    (converted : NestedDict Tensor) : M (NestedDict Tensor) :=
  match items with
  | [] => mret converted
  | (key, value) :: rest =>
      t ← call (λ _ tf, (convert_to_tensor value float32, tf))
               (λ _, CConvertToTensor key value float32);
      convert_items rest (<[key := t]> converted)
  end.

Definition convert_batch_to_tf_tensor (batch : MultiAgentBatch)
    : M (NestedDict Tensor) :=
  let batch := NestedDict_of (policy_batches batch) in
  convert_items (map_to_list batch) ∅.

Definition get_strategy : M MirroredStrategy :=
  tr ← get_self;
  match strategy tr with
  | Some s => mret s
  | None => raise (AttributeError "strategy")
  end.

Definition do_distributed_update (batch : NestedDict Tensor) : M UpdateOuts :=
  s ← get_strategy;
  tr ← get_self;
  update_outs ← strategy_run C s (update_fn (_update_fn tr)) batch;
  mret update_outs.

(** Modelled from the spec: [convert_to_numpy] (ray.rllib.utils.numpy) is
    not part of the sources; it converts results back to host-memory
    arrays, leaf by leaf. *)
Definition convert_to_numpy_loss (l : LossOut) : LossNumpy :=
  match l with
  | LossTensor t => LossArray (to_numpy t)
  | LossMap m => LossArrayMap (to_numpy <$> m)
  end.

(** [tree.flatten] of a dictionary: its values, in the order of the keys. *)
Definition tree_flatten {A} (d : gmap positive A) : list A :=
  (map_to_list d).*2.

(** The loop of [compile_results] over [self._module.keys()]. *)
Fixpoint mean_weights (keys : list string) (mean_ws : gmap string Scalar)
    : M (gmap string Scalar) :=
  match keys with
  | [] => mret mean_ws
  | module_id :: rest =>
      tr ← get_self;
      m ← getitem KStr (_module tr) module_id;
      ws ← (λ st, (inr (get_weights m (tfstate st)), st));
      mean_weights rest (<[module_id := np_mean (array_mean <$> ws)]> mean_ws)
  end.

Definition compile_results (batch : NestedDict Tensor) (fwd_out : FwdOut)
    (postprocessed_loss : LossOut)
    (post_processed_gradients : gmap positive Tensor)
    : M (gmap string ResultValue) :=
  let loss_numpy := convert_to_numpy_loss postprocessed_loss in
  let batch := to_numpy <$> batch in
  let post_processed_gradients := to_numpy <$> post_processed_gradients in
  let mean_grads := array_mean <$> tree_flatten post_processed_gradients in
  let ret : gmap string ResultValue :=
    <["mean_gradient" := RScalar (np_mean mean_grads)]>
      {[ "loss" := RLoss loss_numpy ]} in
  tr ← get_self;
  if in_test tr then
    mean_ws ← mean_weights (map_to_list (_module tr)).*1 ∅;
    mret (<["mean_weight" := RMeanWeights mean_ws]> ret)
  else mret ret.

Definition update (batch : MultiAgentBatch) : M (gmap string ResultValue) :=
  tr ← get_self;
  if decide ((dom (policy_batches batch) : gset string) ≠ dom (_module tr))
  then raise (ValueError batch_keys_msg)
  else
    batch ← convert_batch_to_tf_tensor batch;
    tr ← get_self;
    update_outs ← (if distributed tr then do_distributed_update batch
                   else update_fn (_update_fn tr) batch);
    let loss := out_loss update_outs in
    let fwd_out := out_fwd_out update_outs in
    let post_processed_gradients := out_post_processed_gradients update_outs in
    results ← compile_results batch fwd_out loss post_processed_gradients;
    mret results.

Definition _make_module : M (gmap string RLModule) :=
  call (make_module C) CMakeModule.

Definition _make_distributed : M (gmap string RLModule) :=
  s ← call (MultiWorkerMirroredStrategy C) CMultiWorkerMirroredStrategy;
  tr ← get_self;
  put_self (set_strategy s tr);;
  s ← get_strategy;
  module ← with_scope s _make_module;
  mret module.

(** [super().add_module(...)] and [super().remove_module(...)] update the
    registry of [self]. *)
Definition RLTrainer_add_module (args : AddModuleArgs) : M unit :=
  tr ← call (λ env, super_add_module C env args) (λ _, CSuperAddModule args);
  put_self tr.

Definition RLTrainer_remove_module (module_id : string) : M unit :=
  tr ← call (λ env, super_remove_module C env module_id)
            (λ _, CSuperRemoveModule module_id);
  put_self tr.

Definition add_module (args : AddModuleArgs) : M unit :=
  tr ← get_self;
  (if distributed tr then
     s ← get_strategy;
     with_scope s (RLTrainer_add_module args)
   else RLTrainer_add_module args);;
  tr ← get_self;
  if _enable_tf_function tr then put_self (set_update_fn TfFunction tr)
  else mret ().

Definition remove_module (module_id : string) : M unit :=
  tr ← get_self;
  (if distributed tr then
     s ← get_strategy;
     with_scope s (RLTrainer_remove_module module_id)
   else RLTrainer_remove_module module_id);;
  tr ← get_self;
  if _enable_tf_function tr then put_self (set_update_fn TfFunction tr)
  else mret ().

Definition get_parameters (module : RLModule) : list TfVariable :=
  trainable_variables module.

Definition get_param_ref (param : TfVariable) : positive :=
  variable_ref param.

Definition get_optimizer_obj (module : RLModule) (optimizer_cls : OptimizerCls)
    : M Optimizer :=
  tr ← get_self;
  let lr := default (PyFloat 1 (-3)) (optimizer_config tr !! "lr") in
  mret {| opt_cls := optimizer_cls; learning_rate := lr |}.

(** ** Closed forms used in the statements *)

(** The log extended by some entries. *)
Definition add_log (es : list Entry) (st : State) : State :=
  set_log (log st ++ es) st.

Definition entry (c : list FrameKind) (call : Call) : Entry :=
  {| e_ctx := c; e_call := call |}.

(** The loss as [_do_update_fn] passes it on: a bare tensor goes under
    the key [total_loss]. *)
Definition as_loss_map (loss : LossOut) : LossOut :=
  match loss with
  | LossTensor t => LossMap {[ "total_loss" := t ]}
  | LossMap m => LossMap m
  end.

Definition loss_lookup (loss : LossOut) (key : string) : option Tensor :=
  match loss with
  | LossTensor _ => None
  | LossMap m => m !! key
  end.

(** What [apply_gradients] hands to each optimizer, when every parameter
    reference is known to [self._params] and to the gradients. *)
Definition plan_item (tr : Trainer) (gradients : gmap positive Tensor)
    (item : Optimizer * list positive)
    : option (Optimizer * list (Tensor * TfVariable)) :=
  variable_list ← mapM (λ r, _params tr !! r) item.2;
  gradient_list ← mapM (λ r, gradients !! r) item.2;
  Some (item.1, zip gradient_list variable_list).

Definition apply_plan (tr : Trainer) (gradients : gmap positive Tensor)
    : option (list (Optimizer * list (Tensor * TfVariable))) :=
  mapM (plan_item tr gradients) (_optim_to_param tr).

Definition run_plan (env : Env)
    (plan : list (Optimizer * list (Tensor * TfVariable))) (tf : TfState)
    : TfState :=
  foldl (λ tf '(optim, gv), (optimizer_apply_gradients C env optim gv tf).2)
    tf plan.

Definition plan_entries (c : list FrameKind)
    (plan : list (Optimizer * list (Tensor * TfVariable))) : list Entry :=
  (λ '(optim, gv), entry c (COptimizerApplyGradients optim gv)) <$> plan.

(** The state when the optimizers have been applied. *)
Definition applied (st : State)
    (plan : list (Optimizer * list (Tensor * TfVariable))) : State :=
  {| self := self st;
     tfstate := run_plan (env_of st) plan (tfstate st);
     ctx := ctx st;
     log := log st ++ plan_entries (kind <$> ctx st) plan |}.

(** *** The update cycle, step by step

    The cycle as it is described: [forward_train] and [compute_loss] are
    called inside the tape, the tape then holds these two calls;
    gradients of [total_loss] are taken from that tape with respect to
    [self._params], passed through [on_after_compute_gradients], and
    applied. *)
Definition in_tape (st : State) : Env :=
  {| env_self := self st; env_ctx := InTape :: (kind <$> ctx st) |}.

Definition cycle_forward (batch : NestedDict Tensor) (st : State)
    : FwdOut * TfState :=
  forward_train C (in_tape st) batch (tfstate st).

Definition cycle_loss (batch : NestedDict Tensor) (st : State)
    : LossOut * TfState :=
  compute_loss C (in_tape st) (cycle_forward batch st).1 batch
    (cycle_forward batch st).2.

Definition cycle_tape (batch : NestedDict Tensor) (st : State) : list Op :=
  [OpForwardTrain batch (cycle_forward batch st).1;
   OpComputeLoss (cycle_forward batch st).1 batch (cycle_loss batch st).1].

Definition cycle_gradients (batch : NestedDict Tensor) (st : State)
    (target : Tensor) : gmap positive Tensor * TfState :=
  tape_gradient C (env_of st) (cycle_tape batch st) target (_params (self st))
    (cycle_loss batch st).2.

Definition cycle_post (batch : NestedDict Tensor) (st : State)
    (target : Tensor) : gmap positive Tensor * TfState :=
  on_after_compute_gradients C (env_of st) (cycle_gradients batch st target).1
    (cycle_gradients batch st target).2.

Definition cycle_outs (batch : NestedDict Tensor) (st : State)
    (target : Tensor) : UpdateOuts :=
  {| out_loss := as_loss_map (cycle_loss batch st).1;
     out_fwd_out := (cycle_forward batch st).1;
     out_post_processed_gradients := (cycle_post batch st target).1 |}.

(** The state when the [with tf.GradientTape()] block is left. *)
Definition after_tape (batch : NestedDict Tensor) (st : State) : State :=
  {| self := self st;
     tfstate := (cycle_loss batch st).2;
     ctx := foldl (λ fs op, tape_record op <$> fs) (ctx st) (cycle_tape batch st);
     log := log st ++ (entry (InTape :: (kind <$> ctx st)) ∘ COp
                         <$> cycle_tape batch st) |}.

Definition gradient_entries (batch : NestedDict Tensor) (st : State)
    (target : Tensor) : list Entry :=
  [entry (kind <$> ctx st)
     (CTapeGradient (cycle_tape batch st) target (_params (self st))
        (cycle_gradients batch st target).1);
   entry (kind <$> ctx st)
     (COnAfterComputeGradients (cycle_gradients batch st target).1
        (cycle_post batch st target).1)].

(** What [_do_update_fn] does with the gradients it has computed. *)
Definition after_gradients (loss : LossOut) (fwd_out : FwdOut)
    (gradients : gmap positive Tensor) : M UpdateOuts :=
  gradients ← call (λ env, on_after_compute_gradients C env gradients)
                   (COnAfterComputeGradients gradients);
  apply_gradients gradients;;
  mret {| out_loss := loss; out_fwd_out := fwd_out;
          out_post_processed_gradients := gradients |}.

(** The trainer after [self._update_fn] has been wrapped again. *)
Definition retraced (tr : Trainer) : Trainer :=
  if _enable_tf_function tr then set_update_fn TfFunction tr else tr.

(** What a collaborator sees when it is called inside the scope of [s]. *)
Definition in_scope (s : MirroredStrategy) (st : State) : Env :=
  {| env_self := self st; env_ctx := InScope s :: (kind <$> ctx st) |}.

(** The state left by a call, made inside the scope of [s], that
    returns the trainer [tr] and the framework state [tf]. *)
Definition scoped (s : MirroredStrategy) (c : Call) (tr : Trainer)
    (tf : TfState) (st : State) : State :=
  {| self := tr; tfstate := tf; ctx := ctx st;
     log := log st ++ [entry (InScope s :: (kind <$> ctx st)) c] |}.

(** The entries a method has added to the log. *)
Definition logged {A} (m : M A) (st : State) : list Entry :=
  drop (length (log st)) (log (m st).2).

(** The state when the cycle is over. *)
Definition cycle_state (batch : NestedDict Tensor) (st : State)
    (target : Tensor) (plan : list (Optimizer * list (Tensor * TfVariable)))
    : State :=
  {| self := self st;
     tfstate := run_plan (env_of st) plan (cycle_post batch st target).2;
     ctx := ctx (after_tape batch st);
     log := log (after_tape batch st) ++ gradient_entries batch st target
              ++ plan_entries (kind <$> ctx st) plan |}.

(** The dictionary [compile_results] builds, read off a trainer and a
    framework state. *)
Definition results_of (tr : Trainer) (tf : TfState) (loss : LossOut)
    (gradients : gmap positive Tensor) : gmap string ResultValue :=
  let ret : gmap string ResultValue :=
    <["mean_gradient" :=
        RScalar (np_mean (array_mean <$> tree_flatten (to_numpy <$> gradients)))]>
      {[ "loss" := RLoss (convert_to_numpy_loss loss) ]} in
  if in_test tr then
    <["mean_weight" :=
        RMeanWeights
          ((λ m, np_mean (array_mean <$> get_weights m tf)) <$> _module tr)]> ret
  else ret.

(** The entries logged by the conversion of a batch. *)
Definition convert_entries (c : list FrameKind)
    (items : list ((string * string) * NdArray)) : list Entry :=
  (λ '(key, value), entry c (CConvertToTensor key value float32)) <$> items.

(** What [update] does with the converted batch. *)
Definition update_converted (batch : NestedDict Tensor)
    : M (gmap string ResultValue) :=
  tr ← get_self;
  update_outs ← (if distributed tr then do_distributed_update batch
                 else update_fn (_update_fn tr) batch);
  compile_results batch (out_fwd_out update_outs) (out_loss update_outs)
    (out_post_processed_gradients update_outs).



(** The learning rate both optimizer constructors read. *)
Definition lr_of (tr : Trainer) : PyValue :=
  default (PyFloat 1 (-3)) (optimizer_config tr !! "lr").

(** The calls a tape records. *)
Definition is_op (c : Call) : bool :=
  match c with COp _ => true | _ => false end.

(** The name of the function a call goes to. *)
Definition call_name (c : Call) : string :=
  match c with
  | CConvertToTensor _ _ _ => "tf.convert_to_tensor"
  | COp (OpForwardTrain _ _) => "forward_train"
  | COp (OpComputeLoss _ _ _) => "compute_loss"
  | CTapeGradient _ _ _ _ => "tape.gradient"
  | COnAfterComputeGradients _ _ => "on_after_compute_gradients"
  | COptimizerApplyGradients _ _ => "optim.apply_gradients"
  | CMultiWorkerMirroredStrategy _ => "MultiWorkerMirroredStrategy"
  | CMakeModule _ => "_make_module"
  | CSuperAddModule _ => "super().add_module"
  | CSuperRemoveModule _ => "super().remove_module"
  end.

(** The calls that create or remove a module. *)
Definition module_lifecycle (c : Call) : bool :=
  match c with
  | CMakeModule _ | CSuperAddModule _ | CSuperRemoveModule _ => true
  | _ => false
  end.

(** [self._update_fn] is the wrapper exactly when tracing is enabled. *)
Definition consistent (tr : Trainer) : Prop :=
  _update_fn tr = if _enable_tf_function tr then TfFunction else Eager.

(** The parameter references the optimizers own. *)
Definition owned (tr : Trainer) (r : positive) : Prop :=
  ∃ optim refs, (optim, refs) ∈ _optim_to_param tr ∧ r ∈ refs.

(** The state when [_do_update_fn] is about to apply the gradients. *)
Definition before_apply (batch : NestedDict Tensor) (st : State)
    (target : Tensor) : State :=
  {| self := self st;
     tfstate := (cycle_post batch st target).2;
     ctx := ctx (after_tape batch st);
     log := log (after_tape batch st) ++ gradient_entries batch st target |}.

End Trainer.

Arguments results_of {_} tr tf loss gradients.
Arguments apply_plan {_} tr gradients.

(** ** A small framework to run the methods on

    Tensors and arrays are integers tagged with a dtype, a module is the
    list of its variables, the framework state maps a variable to its
    value.  The gradient of every parameter is the loss itself and an
    optimizer subtracts it. *)
Module Toy.

Definition mean (l : list Z) : Z := foldr Z.add 0 l `div` Z.of_nat (length l).

Definition framework : Framework := {|
  Tensor := DType * Z;
  NdArray := DType * Z;
  Scalar := Z;
  TfVariable := positive;
  RLModule := list positive;
  FwdOut := Z;
  MirroredStrategy := nat;
  TfState := gmap positive Z;
  ModuleCls := unit;
  ModuleKwargs := unit;
  SetOptimizerFn := unit;
  convert_to_tensor := λ v d, (d, v.2);
  tensor_dtype := fst;
  convert_to_tensor_dtype := λ _ _, eq_refl;
  to_numpy := λ t, t;
  array_mean := snd;
  np_mean := mean;
  trainable_variables := λ m, m;
  get_weights := λ m tf, (λ v, (float32, default 0 (tf !! v))) <$> m;
  variable_ref := λ v, v;
|}.

#[local] Existing Instance framework.

Definition step (gv : list ((DType * Z) * positive)) (tf : gmap positive Z)
    : gmap positive Z :=
  foldl (λ tf '(g, v), <[v := default 0 (tf !! v) - g.2]> tf) tf gv.

Definition collaborators : Collaborators := {|
  forward_train := λ _ batch tf,
    (foldr Z.add 0 ((map_to_list batch).*2.*2), tf);
  compute_loss := λ _ fwd_out _ tf, (LossTensor (float32, fwd_out), tf);
  tape_gradient := λ _ _ target sources tf, ((λ _, target) <$> sources, tf);
  on_after_compute_gradients := λ _ grads tf, (grads, tf);
  optimizer_apply_gradients := λ _ _ gv tf, ((), step gv tf);
  MultiWorkerMirroredStrategy := λ _ tf, (7%nat, tf);
  make_module := λ env tf, (_module (env_self env), tf);
  super_add_module := λ env _ tf, (env_self env, tf);
  super_remove_module := λ env _ tf, (env_self env, tf);
  tf_function := λ f, f;
  strategy_run := λ _ f, f;
|}.

(** A trainer with one module ["agent"] of two parameters. *)
Definition trainer (distributed in_test enable_tf_function : bool) : Trainer := {|
  module_class := (); module_kwargs := ();
  _module := {[ "agent" := [1%positive; 2%positive] ]};
  _params := {[ 1%positive := 1%positive; 2%positive := 2%positive ]};
  _optim_to_param :=
    [({| opt_cls := Adam; learning_rate := PyFloat 1 (-3) |},
      [1%positive; 2%positive])];
  optimizer_config := ∅;
  distributed := distributed; in_test := in_test;
  _enable_tf_function := enable_tf_function;
  _update_fn := if enable_tf_function then TfFunction else Eager;
  strategy := if distributed then Some 7%nat else None;
|}.

Definition state (tr : Trainer) : State := {|
  self := tr;
  tfstate := {[ 1%positive := 10; 2%positive := 20 ]};
  ctx := [];
  log := [];
|}.

Definition batch : MultiAgentBatch := {|
  policy_batches := {[ "agent" := {[ "obs" := (int64, 3); "rewards" := (float64, 4) ]} ]};
|}.

Definition other_batch : MultiAgentBatch := {|
  policy_batches := {[ "stranger" := {[ "obs" := (int64, 3) ]} ]};
|}.

(** An eager trainer under test, and a distributed one that traces. *)
Definition eager : State := state (trainer false true false).
Definition mirrored : State := state (trainer true false true).

(** A float32 tensor, a loss made of one, and two gradients. *)
Definition tensor (z : Z) : Tensor := (float32, z).
Definition bare_loss : LossOut := LossTensor (tensor 5).
Definition loss_map : LossOut := LossMap {[ "total_loss" := tensor 5 ]}.
Definition gradients : gmap positive Tensor :=
  {[ 1%positive := tensor 2; 2%positive := tensor 4 ]}.
Definition fwd_out : FwdOut := 0.

Definition args : AddModuleArgs := {|
  arg_module_id := "newcomer"; arg_module_cls := (); arg_module_kwargs := ();
  arg_set_optimizer_fn := None; arg_optimizer_cls := Some Adam;
|}.

(** A trainer with one optimizer per parameter, gradients for the first
    parameter only, and gradients with one more entry than parameters. *)
Definition adam : Optimizer :=
  {| opt_cls := Adam; learning_rate := PyFloat 1 (-3) |}.

Definition two_optimizers : State := state {|
  module_class := (); module_kwargs := ();
  _module := {[ "agent" := [1%positive; 2%positive] ]};
  _params := {[ 1%positive := 1%positive; 2%positive := 2%positive ]};
  _optim_to_param := [(adam, [1%positive]); (adam, [2%positive])];
  optimizer_config := ∅;
  distributed := false; in_test := false;
  _enable_tf_function := false; _update_fn := Eager;
  strategy := None;
|}.

Definition partial_gradients : gmap positive Tensor :=
  {[ 1%positive := tensor 2 ]}.

Definition more_gradients : gmap positive Tensor :=
  <[ 3%positive := tensor 9 ]> gradients.

(** A distributed trainer before [_make_distributed]. *)
Definition unbuilt : State := state {|
  module_class := (); module_kwargs := ();
  _module := {[ "agent" := [1%positive; 2%positive] ]};
  _params := {[ 1%positive := 1%positive; 2%positive := 2%positive ]};
  _optim_to_param := [(adam, [1%positive; 2%positive])];
  optimizer_config := ∅;
  distributed := true; in_test := false;
  _enable_tf_function := true; _update_fn := TfFunction;
  strategy := None;
|}.

End Toy.

(** * Proofs *)

Section Proofs.
Context `{Framework} (C : Collaborators).
Implicit Types (st : State) (tr : Trainer).

(** ** Running computations *)

Lemma run_bind {A B} (m : M A) (f : A → M B) st :
  (m ≫= f) st =
  match m st with
  | (inl e, st') => (inl e, st')
  | (inr a, st') => f a st'
  end.
Proof. reflexivity. Qed.

Lemma run_bind_inr {A B} (m : M A) (f : A → M B) st a st' :
  m st = (inr a, st') → (m ≫= f) st = f a st'.
Proof. intros Hm. rewrite run_bind, Hm. reflexivity. Qed.

Lemma run_bind_inl {A B} (m : M A) (f : A → M B) st e st' :
  m st = (inl e, st') → (m ≫= f) st = (inl e, st').
Proof. intros Hm. rewrite run_bind, Hm. reflexivity. Qed.

Lemma run_bind_ret {A} (m : M A) st : (m ≫= mret) st = m st.
Proof. rewrite run_bind. by destruct (m st) as [[e|a] st']. Qed.

Lemma run_get_self {B} (f : Trainer → M B) st :
  (get_self ≫= f) st = f (self st) st.
Proof. reflexivity. Qed.

Lemma state_eta st :
  {| self := self st; tfstate := tfstate st; ctx := ctx st; log := log st |} = st.
Proof. destruct st; reflexivity. Qed.

Lemma add_log_nil st : add_log [] st = st.
Proof.
  unfold add_log, set_log. rewrite app_nil_r. apply state_eta.
Qed.

Lemma add_log_add_log es1 es2 st :
  add_log es2 (add_log es1 st) = add_log (es1 ++ es2) st.
Proof. unfold add_log, set_log; simpl. by rewrite app_assoc. Qed.

Lemma kind_tape_record op (fs : list Frame) :
  kind <$> (tape_record op <$> fs) = kind <$> fs.
Proof.
  rewrite <- list_fmap_compose. apply list_fmap_ext.
  intros _ [rec|s] _; reflexivity.
Qed.

(** A call that is not an [Op] only extends the log. *)
Lemma record_not_op c st :
  is_op c = false → record c st = add_log [entry (kind <$> ctx st) c] st.
Proof. destruct c; try discriminate; reflexivity. Qed.

Lemma call_run {A} (f : Env → TfState → A * TfState) (c : A → Call) st :
  call f c st =
  (inr (f (env_of st) (tfstate st)).1,
   record (c (f (env_of st) (tfstate st)).1)
     (set_tfstate (f (env_of st) (tfstate st)).2 st)).
Proof. unfold call. destruct (f _ _); reflexivity. Qed.

Lemma getitem_Some {K V} `{Countable K} (to_key : K → Key)
    (d : gmap K V) key v st :
  d !! key = Some v → getitem to_key d key st = (inr v, st).
Proof. intros Hd. unfold getitem. rewrite Hd. reflexivity. Qed.

Lemma getitem_None {K V} `{Countable K} (to_key : K → Key)
    (d : gmap K V) key st :
  d !! key = None → getitem to_key d key st = (inl (KeyError (to_key key)), st).
Proof. intros Hd. unfold getitem. rewrite Hd. reflexivity. Qed.

(** A comprehension over the keys of [items] whose element expression
    succeeds on each of them without touching the state. *)
Lemma comprehension_keys {K V B} (f : K → M B) (g : K * V → B)
    (items : list (K * V)) st :
  (∀ kv, kv ∈ items → f kv.1 st = (inr (g kv), st)) →
  comprehension f items.*1 st = (inr (g <$> items), st).
Proof.
  induction items as [|kv items IH]; intros Hf; [reflexivity|].
  simpl. rewrite (run_bind_inr _ _ _ _ _ (Hf kv (list_elem_of_here _ _))).
  rewrite (run_bind_inr _ _ _ (g <$> items) st); [reflexivity|].
  apply IH. intros kv' Hin. apply Hf. by apply list_elem_of_further.
Qed.

(** Inserting the images of the items of a map, one after the other,
    maps the map. *)
Lemma foldl_insert_lookup {K A B} `{Countable K} (f : A → B)
    (items : list (K * A)) (acc : gmap K B) k :
  NoDup items.*1 →
  foldl (λ acc '(k, v), <[k := f v]> acc) acc items !! k =
  match (list_to_map items : gmap K A) !! k with
  | Some v => Some (f v)
  | None => acc !! k
  end.
Proof.
  revert acc. induction items as [|[k0 v0] items IH]; intros acc Hnd.
  - simpl. by rewrite lookup_empty.
  - apply NoDup_cons in Hnd as [Hk0 Hnd]. simpl. rewrite IH by done.
    destruct (decide (k = k0)) as [->|Hne].
    + rewrite (not_elem_of_list_to_map_1 _ _ Hk0).
      by rewrite !lookup_insert_eq.
    + by rewrite !lookup_insert_ne.
Qed.

Lemma foldl_insert_map_to_list {K A B} `{Countable K} (f : A → B)
    (m : gmap K A) :
  foldl (λ acc '(k, v), <[k := f v]> acc) ∅ (map_to_list m) = f <$> m.
Proof.
  apply map_eq. intros k.
  rewrite foldl_insert_lookup by apply NoDup_fst_map_to_list.
  rewrite list_to_map_to_list, lookup_fmap, lookup_empty.
  by destruct (m !! k).
Qed.

(** ** Optimizers *)

Lemma configure_optimizers_run st :
  configure_optimizers st =
  (inr ((λ km : string * RLModule,
           (trainable_variables km.2,
            {| opt_cls := Adam; learning_rate := lr_of (self st) |}))
        <$> map_to_list (_module (self st))), st).
Proof.
  unfold configure_optimizers. rewrite run_get_self.
  apply comprehension_keys. intros [k m] Hin.
  apply elem_of_map_to_list in Hin. simpl.
  rewrite (run_bind_inr _ _ _ m st); [reflexivity|].
  by apply getitem_Some.
Qed.

(** C3. [configure_optimizers] returns one pair (trainable variables,
    Adam optimizer) per module key of the registry, the keys being
    pairwise distinct, and [configure_optimizers] and [get_optimizer_obj]
    both construct their optimizer with the learning rate
    [optimizer_config["lr"]], which is [1e-3] when the key is absent. *)
Theorem configure_optimizers_per_module st :
  let tr := self st in
  let lr := match optimizer_config tr !! "lr" with
            | Some v => v
            | None => PyFloat 1 (-3)
            end in
  (∃ pairs,
     configure_optimizers st = (inr pairs, st) ∧
     length pairs = size (_module tr) ∧
     NoDup (map_to_list (_module tr)).*1 ∧
     (∀ key, key ∈ (map_to_list (_module tr)).*1 ↔ key ∈ dom (_module tr)) ∧
     (∀ i key,
        (map_to_list (_module tr)).*1 !! i = Some key →
        ∃ m, _module tr !! key = Some m ∧
             pairs !! i =
             Some (trainable_variables m,
                   {| opt_cls := Adam; learning_rate := lr |}))) ∧
  (∀ module optimizer_cls,
     get_optimizer_obj module optimizer_cls st =
     (inr {| opt_cls := optimizer_cls; learning_rate := lr |}, st)).
Proof.
  intros tr lr.
  assert (Hlr : lr = lr_of tr).
  { unfold lr, lr_of. by destruct (optimizer_config tr !! "lr"). }
  rewrite Hlr. split; [|reflexivity].
  eexists. split; [apply configure_optimizers_run|].
  split; [by rewrite length_fmap, length_map_to_list|].
  split; [apply NoDup_fst_map_to_list|].
  split.
  - intros key. rewrite elem_of_dom, list_elem_of_fmap. split.
    + intros [[k m] [-> Hin]]. apply elem_of_map_to_list in Hin. by exists m.
    + intros [m Hm]. exists (key, m). split; [done|].
      by apply elem_of_map_to_list.
  - intros i key Hi. rewrite list_lookup_fmap in Hi.
    destruct (map_to_list (_module tr) !! i) as [[k m]|] eqn:Hkm;
      simplify_eq/=.
    exists m. split.
    + apply elem_of_map_to_list. by eapply list_elem_of_lookup_2.
    + rewrite list_lookup_fmap. fold tr. by rewrite Hkm.
Qed.

(** ** Compiling the results *)

Lemma mean_weights_run (items : list (string * RLModule))
    (mean_ws : gmap string Scalar) st :
  (∀ kv, kv ∈ items → _module (self st) !! kv.1 = Some kv.2) →
  mean_weights items.*1 mean_ws st =
  (inr (foldl (λ acc '(k, m),
                 <[k := np_mean (array_mean <$> get_weights m (tfstate st))]> acc)
          mean_ws items), st).
Proof.
  revert mean_ws. induction items as [|[k m] items IH]; intros mean_ws Hin;
    [reflexivity|].
  simpl. rewrite run_get_self.
  rewrite (run_bind_inr _ _ _ m st).
  2:{ apply getitem_Some. apply (Hin (k, m)), list_elem_of_here. }
  rewrite run_bind. apply IH.
  intros kv Hkv. apply Hin. by apply list_elem_of_further.
Qed.

Lemma compile_results_run batch fwd_out loss gradients st :
  compile_results batch fwd_out loss gradients st =
  (inr (results_of (self st) (tfstate st) loss gradients), st).
Proof.
  unfold compile_results, results_of. rewrite run_get_self.
  destruct (in_test (self st)); [|reflexivity].
  erewrite run_bind_inr.
  2:{ apply mean_weights_run. intros [k m] Hkm.
      by apply elem_of_map_to_list in Hkm. }
  by rewrite (foldl_insert_map_to_list
    (λ m, np_mean (array_mean <$> get_weights m (tfstate st)))).
Qed.

(** C6. [compile_results] returns a mapping whose ["loss"] entry is the
    loss converted to numpy arrays and whose ["mean_gradient"] entry is
    the mean, over the flattened post-processed gradients, of the mean of
    each; the ["mean_weight"] entry, which gives for each module the mean
    of the means of its weights, is present exactly when the trainer was
    constructed with [in_test=True]. *)
Theorem compile_results_entries batch fwd_out loss gradients st :
  ∃ ret,
    compile_results batch fwd_out loss gradients st = (inr ret, st) ∧
    ret !! "loss" = Some (RLoss (convert_to_numpy_loss loss)) ∧
    ret !! "mean_gradient" =
      Some (RScalar (np_mean (array_mean <$>
                       tree_flatten (to_numpy <$> gradients)))) ∧
    (is_Some (ret !! "mean_weight") ↔ in_test (self st) = true) ∧
    (in_test (self st) = true →
     ret !! "mean_weight" =
       Some (RMeanWeights
         ((λ m, np_mean (array_mean <$> get_weights m (tfstate st)))
            <$> _module (self st)))) ∧
    (∀ cls kwargs config (distributed_arg in_test_arg enable_arg : bool),
       in_test (__init__ cls kwargs config distributed_arg in_test_arg enable_arg)
       = in_test_arg).
Proof.
  eexists. split; [apply compile_results_run|].
  unfold results_of. destruct (in_test (self st)) eqn:Htest.
  - split_and!; by simplify_map_eq.
  - split_and!; by simplify_map_eq.
Qed.

(** ** Converting the batch *)

Lemma set_tfstate_same st : set_tfstate (tfstate st) st = st.
Proof. apply state_eta. Qed.

Lemma convert_items_run (items : list ((string * string) * NdArray))
    (converted : gmap (string * string) Tensor) st :
  convert_items items converted st =
  (inr (foldl (λ acc '(k, v), <[k := convert_to_tensor v float32]> acc)
          converted items),
   add_log (convert_entries (kind <$> ctx st) items) st).
Proof.
  revert converted st. induction items as [|[key value] items IH];
    intros converted st.
  - simpl. by rewrite add_log_nil.
  - simpl. rewrite run_bind, call_run. simpl.
    rewrite set_tfstate_same, record_not_op by done.
    rewrite IH. simpl. by rewrite add_log_add_log.
Qed.

Lemma convert_batch_to_tf_tensor_run batch st :
  convert_batch_to_tf_tensor batch st =
  (inr ((λ v, convert_to_tensor v float32)
          <$> NestedDict_of (policy_batches batch)),
   add_log (convert_entries (kind <$> ctx st)
              (map_to_list (NestedDict_of (policy_batches batch)))) st).
Proof.
  unfold convert_batch_to_tf_tensor. rewrite convert_items_run.
  by rewrite (foldl_insert_map_to_list (λ v, convert_to_tensor v float32)).
Qed.

(** [update] on a batch whose keys are those of the modules. *)
Lemma update_accepted batch st :
  dom (policy_batches batch) = dom (_module (self st)) →
  update C batch st = (convert_batch_to_tf_tensor batch ≫= update_converted C) st.
Proof.
  intros Hkeys. unfold update. rewrite run_get_self.
  case_decide; [done|].
  rewrite !run_bind. destruct (convert_batch_to_tf_tensor batch st) as [[e|b] st1];
    [reflexivity|].
  unfold update_converted. rewrite !run_get_self, !run_bind.
  destruct (if distributed (self st1) then _ else _) as [[e|outs] st2];
    [reflexivity|].
  apply run_bind_ret.
Qed.

Lemma update_rejected batch st :
  dom (policy_batches batch) ≠ dom (_module (self st)) →
  update C batch st = (inl (ValueError batch_keys_msg), st).
Proof.
  intros Hkeys. unfold update. rewrite run_get_self. by case_decide.
Qed.

(** C10. [convert_batch_to_tf_tensor] returns a [NestedDict] with the
    leaves of [batch.policy_batches], each converted to a tensor of dtype
    float32 whatever it was; and [update], on a batch it accepts, starts
    with this conversion and runs the update cycle on its result. *)
Theorem convert_batch_to_tf_tensor_float32 batch st :
  ∃ converted st',
    convert_batch_to_tf_tensor batch st = (inr converted, st') ∧
    (∀ module_id column,
       converted !! (module_id, column) =
       (λ v, convert_to_tensor v float32)
         <$> (policy_batches batch !! module_id ≫= (.!! column))) ∧
    (∀ key t, converted !! key = Some t → tensor_dtype t = float32) ∧
    st' = add_log (convert_entries (kind <$> ctx st)
                     (map_to_list (NestedDict_of (policy_batches batch)))) st ∧
    (dom (policy_batches batch) = dom (_module (self st)) →
     update C batch st = update_converted C converted st').
Proof.
  eexists _, _. split; [apply convert_batch_to_tf_tensor_run|].
  split_and!.
  - intros module_id column. rewrite lookup_fmap. unfold NestedDict_of.
    by rewrite lookup_map_uncurry.
  - intros key t. rewrite lookup_fmap.
    destruct (NestedDict_of (policy_batches batch) !! key) as [v|];
      intros; simplify_eq/=.
    apply convert_to_tensor_dtype.
  - reflexivity.
  - intros Hkeys. rewrite update_accepted by done.
    by rewrite run_bind, convert_batch_to_tf_tensor_run.
Qed.

(** ** Applying the gradients *)

Lemma comprehension_getitem_Some {V} (d : gmap positive V) refs vs st :
  mapM (λ r, d !! r) refs = Some vs →
  comprehension (getitem KRef d) refs st = (inr vs, st).
Proof.
  revert vs. induction refs as [|r refs IH]; intros vs Hvs; simpl in *.
  - by injection Hvs as <-.
  - destruct (d !! r) as [v|] eqn:Hr; [|done]. simpl in Hvs.
    destruct (mapM _ refs) as [vs'|]; [|done]. injection Hvs as <-.
    rewrite (run_bind_inr _ _ _ v st) by by apply getitem_Some.
    by rewrite (run_bind_inr _ _ _ vs' st) by by apply IH.
Qed.

Lemma comprehension_getitem_None {V} (d : gmap positive V) refs st :
  mapM (λ r, d !! r) refs = None →
  ∃ r, r ∈ refs ∧ d !! r = None ∧
       comprehension (getitem KRef d) refs st = (inl (KeyError (KRef r)), st).
Proof.
  induction refs as [|r refs IH]; intros Hvs; simpl in *; [done|].
  destruct (d !! r) as [v|] eqn:Hr.
  - simpl in Hvs. destruct (mapM _ refs) as [vs'|] eqn:Hrefs; [done|].
    destruct IH as (r' & Hin & Hr' & Hrun); [done|].
    exists r'. split_and!; [by apply list_elem_of_further|done|].
    rewrite (run_bind_inr _ _ _ v st) by by apply getitem_Some.
    by rewrite (run_bind_inl _ _ _ _ _ Hrun).
  - exists r. split_and!; [apply list_elem_of_here|done|].
    by rewrite (run_bind_inl _ _ _ _ st (getitem_None _ _ _ _ Hr)).
Qed.

Lemma apply_gradients_step_Some gradients item p st :
  plan_item (self st) gradients item = Some p →
  apply_gradients_step C gradients item st = (inr (), applied C st [p]).
Proof.
  destruct item as [optim refs]. unfold plan_item; simpl. intros Hp.
  destruct (mapM (λ r, _params (self st) !! r) refs) as [vl|] eqn:Hvl; [|done].
  destruct (mapM (λ r, gradients !! r) refs) as [gl|] eqn:Hgl; [|done].
  simplify_eq/=. rewrite run_get_self.
  rewrite (run_bind_inr _ _ _ vl st) by by apply comprehension_getitem_Some.
  rewrite (run_bind_inr _ _ _ gl st) by by apply comprehension_getitem_Some.
  rewrite call_run. unfold applied, run_plan; simpl.
  by destruct (optimizer_apply_gradients _ _ _ _ _) as [[] tf].
Qed.

Lemma apply_gradients_step_None gradients item st :
  plan_item (self st) gradients item = None →
  ∃ r, apply_gradients_step C gradients item st = (inl (KeyError (KRef r)), st).
Proof.
  destruct item as [optim refs]. unfold plan_item; simpl. intros Hp.
  rewrite run_get_self.
  destruct (mapM (λ r, _params (self st) !! r) refs) as [vl|] eqn:Hvl.
  - destruct (mapM (λ r, gradients !! r) refs) as [gl|] eqn:Hgl; [done|].
    destruct (comprehension_getitem_None _ _ st Hgl) as (r & _ & _ & Hrun).
    exists r.
    rewrite (run_bind_inr _ _ _ vl st) by by apply comprehension_getitem_Some.
    by rewrite (run_bind_inl _ _ _ _ _ Hrun).
  - destruct (comprehension_getitem_None _ _ st Hvl) as (r & _ & _ & Hrun).
    exists r. by rewrite (run_bind_inl _ _ _ _ _ Hrun).
Qed.

Lemma applied_cons st p plan :
  applied C (applied C st [p]) plan = applied C st (p :: plan).
Proof.
  unfold applied; simpl. destruct p as [optim gv]. simpl.
  by rewrite <- app_assoc.
Qed.

Lemma apply_loop_Some gradients items plan st :
  mapM (plan_item (self st) gradients) items = Some plan →
  for_each items (apply_gradients_step C gradients) st = (inr (), applied C st plan).
Proof.
  revert plan st. induction items as [|item items IH]; intros plan st Hplan;
    simpl in *.
  - injection Hplan as <-. unfold applied; simpl.
    by rewrite app_nil_r, state_eta.
  - destruct (plan_item _ _ item) as [p|] eqn:Hp; [|done]. simpl in Hplan.
    destruct (mapM _ items) as [plan'|] eqn:Hplan'; [|done].
    injection Hplan as <-.
    rewrite (run_bind_inr _ _ _ _ _ (apply_gradients_step_Some _ _ _ _ Hp)).
    rewrite (IH plan') by done. by rewrite applied_cons.
Qed.

Lemma apply_loop_None gradients items st :
  mapM (plan_item (self st) gradients) items = None →
  ∃ r st', for_each items (apply_gradients_step C gradients) st
           = (inl (KeyError (KRef r)), st').
Proof.
  revert st. induction items as [|item items IH]; intros st Hplan;
    simpl in *; [done|].
  destruct (plan_item _ _ item) as [p|] eqn:Hp.
  - simpl in Hplan. destruct (mapM _ items) as [plan'|] eqn:Hplan'; [done|].
    rewrite (run_bind_inr _ _ _ _ _ (apply_gradients_step_Some _ _ _ _ Hp)).
    by apply IH.
  - destruct (apply_gradients_step_None _ _ _ Hp) as [r Hrun].
    exists r, st. by rewrite (run_bind_inl _ _ _ _ _ Hrun).
Qed.

Lemma apply_gradients_Some gradients plan st :
  apply_plan (self st) gradients = Some plan →
  apply_gradients C gradients st = (inr (), applied C st plan).
Proof. intros Hplan. by apply apply_loop_Some. Qed.

Lemma apply_gradients_None gradients st :
  apply_plan (self st) gradients = None →
  ∃ r st', apply_gradients C gradients st = (inl (KeyError (KRef r)), st').
Proof. intros Hplan. by apply apply_loop_None. Qed.

(** ** The update cycle *)

Lemma state_ext st1 st2 :
  self st1 = self st2 → tfstate st1 = tfstate st2 →
  ctx st1 = ctx st2 → log st1 = log st2 → st1 = st2.
Proof. destruct st1, st2; simpl; by intros -> -> -> ->. Qed.

Lemma self_record c st : self (record c st) = self st.
Proof. by destruct c. Qed.

Lemma tfstate_record c st : tfstate (record c st) = tfstate st.
Proof. by destruct c. Qed.

Lemma ctx_record_op op st : ctx (record (COp op) st) = tape_record op <$> ctx st.
Proof. reflexivity. Qed.

Lemma log_record c st :
  log (record c st) = log st ++ [entry (kind <$> ctx st) c].
Proof. by destruct c. Qed.

Lemma kind_ctx_record c st : kind <$> ctx (record c st) = kind <$> ctx st.
Proof. destruct c; try reflexivity. simpl. apply kind_tape_record. Qed.

Lemma env_of_record c st : env_of (record c st) = env_of st.
Proof. unfold env_of. by rewrite self_record, kind_ctx_record. Qed.

Lemma env_of_in_tape tf st :
  env_of (set_tfstate tf (set_ctx (FTape [] :: ctx st) st)) = in_tape st.
Proof. reflexivity. Qed.

(** The [with tf.GradientTape()] block of [_do_update_fn]. *)
Lemma tape_block_run batch st :
  with_gradient_tape (
    fwd_out ← call (λ env, forward_train C env batch)
                   (λ fwd_out, COp (OpForwardTrain batch fwd_out));
    loss ← call (λ env, compute_loss C env fwd_out batch)
                (λ loss, COp (OpComputeLoss fwd_out batch loss));
    let loss :=
      match loss with
      | LossTensor t => LossMap {[ "total_loss" := t ]}
      | LossMap _ => loss
      end in
    mret (fwd_out, loss)) st =
  (inr (cycle_tape C batch st,
        ((cycle_forward C batch st).1, as_loss_map (cycle_loss C batch st).1)),
   after_tape C batch st).
Proof.
  unfold with_gradient_tape. rewrite run_bind, call_run.
  change (forward_train C _ batch _) with (cycle_forward C batch st).
  rewrite run_bind, call_run, env_of_record, tfstate_record.
  change (compute_loss C _ _ batch _) with (cycle_loss C batch st).
  set (fwd := cycle_forward C batch st). set (loss := cycle_loss C batch st).
  simpl. f_equal.
  - unfold cycle_tape. fold fwd loss. by destruct (loss.1).
  - apply state_ext; simpl.
    + reflexivity.
    + reflexivity.
    + reflexivity.
    + rewrite kind_tape_record, <- app_assoc. reflexivity.
Qed.

Lemma loss_getitem_Some loss target st :
  loss_lookup loss "total_loss" = Some target →
  loss_getitem loss "total_loss" st = (inr target, st).
Proof. destruct loss as [t|m]; [done|]. apply getitem_Some. Qed.

Lemma loss_getitem_as_loss_map_None loss st :
  loss_lookup (as_loss_map loss) "total_loss" = None →
  loss_getitem (as_loss_map loss) "total_loss" st
  = (inl (KeyError (KStr "total_loss")), st).
Proof. destruct loss as [t|m]; simpl; apply getitem_None. Qed.

Lemma compute_gradients_Some loss tape target st :
  loss_lookup loss "total_loss" = Some target →
  compute_gradients C loss tape st =
  (inr (tape_gradient C (env_of st) tape target (_params (self st))
          (tfstate st)).1,
   record
     (CTapeGradient tape target (_params (self st))
        (tape_gradient C (env_of st) tape target (_params (self st))
           (tfstate st)).1)
     (set_tfstate
        (tape_gradient C (env_of st) tape target (_params (self st))
           (tfstate st)).2 st)).
Proof.
  intros Htarget. unfold compute_gradients.
  rewrite (run_bind_inr _ _ _ _ _ (loss_getitem_Some _ _ st Htarget)).
  rewrite run_get_self, run_bind, call_run. reflexivity.
Qed.

Lemma env_of_after_tape batch st : env_of (after_tape C batch st) = env_of st.
Proof. unfold env_of; simpl. by rewrite !kind_tape_record. Qed.

Lemma kind_ctx_after_tape batch st :
  kind <$> ctx (after_tape C batch st) = kind <$> ctx st.
Proof. simpl. by rewrite !kind_tape_record. Qed.

(** The cycle goes through when the loss has a [total_loss] and every
    parameter reference of the optimizers is known. *)
Lemma do_update_fn_Some batch st target plan :
  loss_lookup (as_loss_map (cycle_loss C batch st).1) "total_loss" = Some target →
  apply_plan (self st) (cycle_post C batch st target).1 = Some plan →
  _do_update_fn C batch st =
  (inr (cycle_outs C batch st target), cycle_state C batch st target plan).
Proof.
  intros Htarget Hplan. unfold _do_update_fn.
  rewrite (run_bind_inr _ _ _ _ _ (tape_block_run batch st)).
  rewrite (run_bind_inr _ _ _ _ _ (compute_gradients_Some _ _ _ _ Htarget)).
  rewrite env_of_after_tape.
  change (tape_gradient C _ _ _ _ _) with (cycle_gradients C batch st target).
  rewrite run_bind, call_run, env_of_record, tfstate_record.
  change (env_of (set_tfstate _ (after_tape C batch st)))
    with (env_of (after_tape C batch st)).
  rewrite env_of_after_tape.
  change (on_after_compute_gradients C _ _ _) with (cycle_post C batch st target).
  erewrite run_bind_inr.
  2:{ apply apply_gradients_Some. exact Hplan. }
  simpl. f_equal. apply state_ext.
  - reflexivity.
  - simpl. unfold env_of. simpl. by rewrite !kind_tape_record.
  - reflexivity.
  - simpl. rewrite !kind_tape_record. by rewrite <- !app_assoc.
Qed.

Lemma do_update_fn_no_total_loss batch st :
  loss_lookup (as_loss_map (cycle_loss C batch st).1) "total_loss" = None →
  _do_update_fn C batch st =
  (inl (KeyError (KStr "total_loss")), after_tape C batch st).
Proof.
  intros Htarget. unfold _do_update_fn.
  rewrite (run_bind_inr _ _ _ _ _ (tape_block_run batch st)).
  unfold compute_gradients.
  rewrite run_bind.
  by rewrite (run_bind_inl _ _ _ _ _
    (loss_getitem_as_loss_map_None _ _ Htarget)).
Qed.

Lemma do_update_fn_no_plan batch st target :
  loss_lookup (as_loss_map (cycle_loss C batch st).1) "total_loss" = Some target →
  apply_plan (self st) (cycle_post C batch st target).1 = None →
  ∃ r st', _do_update_fn C batch st = (inl (KeyError (KRef r)), st').
Proof.
  intros Htarget Hplan. unfold _do_update_fn.
  rewrite (run_bind_inr _ _ _ _ _ (tape_block_run batch st)).
  rewrite (run_bind_inr _ _ _ _ _ (compute_gradients_Some _ _ _ _ Htarget)).
  rewrite env_of_after_tape.
  change (tape_gradient C _ _ _ _ _) with (cycle_gradients C batch st target).
  rewrite run_bind, call_run, env_of_record, tfstate_record.
  change (env_of (set_tfstate _ (after_tape C batch st)))
    with (env_of (after_tape C batch st)).
  rewrite env_of_after_tape.
  change (on_after_compute_gradients C _ _ _) with (cycle_post C batch st target).
  edestruct apply_gradients_None as (r & st' & Hrun); last first.
  { exists r, st'. rewrite (run_bind_inl _ _ _ _ _ Hrun). reflexivity. }
  exact Hplan.
Qed.

(** The outcomes of the cycle. *)
Lemma do_update_fn_cases batch st :
  (∃ target plan,
     loss_lookup (as_loss_map (cycle_loss C batch st).1) "total_loss"
       = Some target ∧
     apply_plan (self st) (cycle_post C batch st target).1 = Some plan ∧
     _do_update_fn C batch st =
     (inr (cycle_outs C batch st target), cycle_state C batch st target plan)) ∨
  (∃ k st', _do_update_fn C batch st = (inl (KeyError k), st')).
Proof.
  destruct (loss_lookup (as_loss_map (cycle_loss C batch st).1) "total_loss")
    as [target|] eqn:Htarget.
  - destruct (apply_plan (self st) (cycle_post C batch st target).1)
      as [plan|] eqn:Hplan.
    + left. exists target, plan. split_and!; [done..|].
      by apply do_update_fn_Some.
    + right. destruct (do_update_fn_no_plan _ _ _ Htarget Hplan) as (r & st' & ?).
      by exists (KRef r), st'.
  - right. eexists _, _. by apply do_update_fn_no_total_loss.
Qed.

Lemma do_update_fn_steps batch st :
  _do_update_fn C batch st =
  (compute_gradients C (as_loss_map (cycle_loss C batch st).1)
     (cycle_tape C batch st)
   ≫= after_gradients C (as_loss_map (cycle_loss C batch st).1)
        (cycle_forward C batch st).1) (after_tape C batch st).
Proof.
  unfold _do_update_fn.
  by rewrite (run_bind_inr _ _ _ _ _ (tape_block_run batch st)).
Qed.

Lemma do_update_fn_inv batch st outs st' :
  _do_update_fn C batch st = (inr outs, st') ↔
  ∃ target plan,
    loss_lookup (as_loss_map (cycle_loss C batch st).1) "total_loss"
      = Some target ∧
    apply_plan (self st) (cycle_post C batch st target).1 = Some plan ∧
    outs = cycle_outs C batch st target ∧
    st' = cycle_state C batch st target plan.
Proof.
  split.
  - intros Hrun.
    destruct (do_update_fn_cases batch st)
      as [(target & plan & Ht & Hp & Heq)|(k & st'' & Heq)];
      rewrite Heq in Hrun; [|done].
    exists target, plan. by simplify_eq.
  - intros (target & plan & Ht & Hp & -> & ->). by apply do_update_fn_Some.
Qed.



(** C7. [compute_gradients] returns what [tape.gradient] computes for
    the one tensor [loss["total_loss"]] with respect to the whole
    dictionary [self._params]; and the tape [_do_update_fn] hands to it
    is the one that recorded the forward pass and the loss computation:
    it holds these two calls, which were made inside the tape, and
    nothing else. *)
Theorem compute_gradients_of_total_loss loss tape target st :
  loss_lookup loss "total_loss" = Some target →
  let grads :=
    tape_gradient C (env_of st) tape target (_params (self st)) (tfstate st) in
  compute_gradients C loss tape st =
    (inr grads.1,
     add_log [entry (kind <$> ctx st)
                (CTapeGradient tape target (_params (self st)) grads.1)]
       (set_tfstate grads.2 st)) ∧
  (∀ batch s,
     _do_update_fn C batch s =
       (compute_gradients C (as_loss_map (cycle_loss C batch s).1)
          (cycle_tape C batch s)
        ≫= after_gradients C (as_loss_map (cycle_loss C batch s).1)
             (cycle_forward C batch s).1) (after_tape C batch s) ∧
     cycle_tape C batch s =
       [OpForwardTrain batch (cycle_forward C batch s).1;
        OpComputeLoss (cycle_forward C batch s).1 batch (cycle_loss C batch s).1] ∧
     log (after_tape C batch s) =
       log s ++ (entry (InTape :: (kind <$> ctx s)) ∘ COp <$> cycle_tape C batch s) ∧
     _params (self (after_tape C batch s)) = _params (self s)).
Proof.
  intros Htarget grads. split.
  - rewrite (compute_gradients_Some _ _ _ _ Htarget).
    by rewrite record_not_op.
  - intros batch s. split_and!; try reflexivity. apply do_update_fn_steps.
Qed.

(** C9. [_do_update_fn] puts a bare tensor returned by [compute_loss]
    under the key ["total_loss"], which is [TOTAL_LOSS_KEY]; so when
    [compute_loss] returns a bare tensor or a mapping that has the key
    ["total_loss"], the lookup [loss["total_loss"]] of
    [compute_gradients] succeeds, [compute_gradients] returns, and
    [_do_update_fn] raises neither a [KeyError] for that key nor a
    [TypeError]. *)
Theorem total_loss_lookup_succeeds batch st :
  match (cycle_loss C batch st).1 with
  | LossTensor _ => True
  | LossMap m => is_Some (m !! "total_loss")
  end →
  let loss := as_loss_map (cycle_loss C batch st).1 in
  TOTAL_LOSS_KEY = "total_loss" ∧
  (∀ t, (cycle_loss C batch st).1 = LossTensor t →
        loss = LossMap {[ TOTAL_LOSS_KEY := t ]}) ∧
  _do_update_fn C batch st =
    (compute_gradients C loss (cycle_tape C batch st)
     ≫= after_gradients C loss (cycle_forward C batch st).1)
      (after_tape C batch st) ∧
  (∃ target grads st1,
     loss_getitem loss "total_loss" (after_tape C batch st)
       = (inr target, after_tape C batch st) ∧
     compute_gradients C loss (cycle_tape C batch st) (after_tape C batch st)
       = (inr grads, st1)) ∧
  (∀ e st', _do_update_fn C batch st = (inl e, st') → ∃ r, e = KeyError (KRef r)).
Proof.
  intros Hpre loss.
  assert (Htarget : ∃ target, loss_lookup loss "total_loss" = Some target).
  { unfold loss. destruct (cycle_loss C batch st).1 as [t|m]; simpl.
    - exists t. by rewrite lookup_singleton_eq.
    - destruct Hpre as [t Ht]. by exists t. }
  destruct Htarget as [target Htarget].
  split_and!.
  - reflexivity.
  - unfold loss. by intros t ->.
  - apply do_update_fn_steps.
  - eexists target, _, _. split.
    + by apply loss_getitem_Some.
    + by apply compute_gradients_Some.
  - intros e st' Hrun.
    destruct (apply_plan (self st) (cycle_post C batch st target).1)
      as [plan|] eqn:Hplan.
    + by rewrite (do_update_fn_Some _ _ _ _ Htarget Hplan) in Hrun.
    + destruct (do_update_fn_no_plan _ _ _ Htarget Hplan) as (r & st'' & Heq).
      rewrite Heq in Hrun. exists r. by simplify_eq.
Qed.

(** ** The check of the batch keys *)






(** ** Dispatching the update *)

Lemma do_distributed_update_Some batch st s :
  strategy (self st) = Some s →
  do_distributed_update C batch st =
  strategy_run C s (update_fn C (_update_fn (self st))) batch st.
Proof.
  intros Hs. unfold do_distributed_update, get_strategy.
  rewrite run_bind, run_get_self, Hs. simpl.
  by rewrite run_get_self, run_bind_ret.
Qed.

Lemma do_distributed_update_None batch st :
  strategy (self st) = None →
  do_distributed_update C batch st = (inl (AttributeError "strategy"), st).
Proof.
  intros Hs. unfold do_distributed_update, get_strategy.
  by rewrite run_bind, run_get_self, Hs.
Qed.

(** C5. On a batch it accepts, [update] goes one of two ways.  A
    trainer constructed with [distributed=True] runs the cycle through
    [do_distributed_update], which hands the update function to the
    [run] of the mirrored strategy; any other trainer calls the update
    function itself.  Either way, what [update] returns is
    [compile_results] of the outputs of that call. *)
Theorem update_dispatch batch st :
  dom (policy_batches batch) = dom (_module (self st)) →
  let converted :=
    (λ v, convert_to_tensor v float32) <$> NestedDict_of (policy_batches batch) in
  let st0 :=
    add_log (convert_entries (kind <$> ctx st)
               (map_to_list (NestedDict_of (policy_batches batch)))) st in
  let results (update_outs : UpdateOuts) :=
    compile_results converted (out_fwd_out update_outs) (out_loss update_outs)
      (out_post_processed_gradients update_outs) in
  (distributed (self st) = true →
   update C batch st = (do_distributed_update C converted ≫= results) st0 ∧
   ∀ s, strategy (self st) = Some s →
        do_distributed_update C converted st0 =
        strategy_run C s (update_fn C (_update_fn (self st))) converted st0) ∧
  (distributed (self st) = false →
   update C batch st =
   (update_fn C (_update_fn (self st)) converted ≫= results) st0) ∧
  (update_fn C Eager = _do_update_fn C ∧
   update_fn C TfFunction = tf_function C (_do_update_fn C)) ∧
  (∀ r st',
     update C batch st = (inr r, st') →
     ∃ update_outs,
       (if distributed (self st) then do_distributed_update C converted
        else update_fn C (_update_fn (self st)) converted) st0
         = (inr update_outs, st') ∧
       results update_outs st' = (inr r, st')) ∧
  (∀ cls kwargs config (distributed_arg in_test_arg enable_arg : bool),
     distributed
       (__init__ cls kwargs config distributed_arg in_test_arg enable_arg)
     = distributed_arg).
Proof.
  intros Hkeys converted st0 results.
  assert (Hupd : update C batch st =
    ((if distributed (self st) then do_distributed_update C converted
      else update_fn C (_update_fn (self st)) converted) ≫= results) st0).
  { rewrite update_accepted by done.
    rewrite run_bind, convert_batch_to_tf_tensor_run.
    unfold update_converted. by rewrite run_get_self. }
  split_and!.
  - intros Hdist. rewrite Hdist in Hupd. split; [done|].
    intros s Hs. exact (do_distributed_update_Some converted st0 s Hs).
  - intros Hdist. by rewrite Hdist in Hupd.
  - reflexivity.
  - reflexivity.
  - intros r st'. rewrite Hupd, run_bind.
    destruct ((if distributed (self st) then do_distributed_update C converted
               else update_fn C (_update_fn (self st)) converted) st0)
      as [[e|outs] st1]; [done|].
    unfold results. rewrite compile_results_run. intros ?; simplify_eq.
    exists outs. split; [done|]. by rewrite compile_results_run.
  - reflexivity.
Qed.

(** ** Modules are created and removed inside the scope *)

Lemma with_scope_add_module s args st :
  with_scope s (RLTrainer_add_module C args) st =
  (inr (),
   scoped s (CSuperAddModule args)
     (super_add_module C (in_scope s st) args (tfstate st)).1
     (super_add_module C (in_scope s st) args (tfstate st)).2 st).
Proof.
  unfold with_scope, RLTrainer_add_module. rewrite run_bind, call_run.
  change (env_of (set_ctx _ st)) with (in_scope s st). simpl.
  by destruct (super_add_module C _ _ _).
Qed.

Lemma with_scope_remove_module s module_id st :
  with_scope s (RLTrainer_remove_module C module_id) st =
  (inr (),
   scoped s (CSuperRemoveModule module_id)
     (super_remove_module C (in_scope s st) module_id (tfstate st)).1
     (super_remove_module C (in_scope s st) module_id (tfstate st)).2 st).
Proof.
  unfold with_scope, RLTrainer_remove_module. rewrite run_bind, call_run.
  change (env_of (set_ctx _ st)) with (in_scope s st). simpl.
  by destruct (super_remove_module C _ _ _).
Qed.

Lemma retrace_run st :
  (get_self ≫= λ tr,
     if _enable_tf_function tr then put_self (set_update_fn TfFunction tr)
     else mret ()) st =
  (inr (), set_self (retraced (self st)) st).
Proof.
  rewrite run_get_self. unfold retraced.
  destruct (_enable_tf_function (self st)); [reflexivity|].
  unfold set_self. by rewrite state_eta.
Qed.

Lemma add_module_distributed args st s :
  distributed (self st) = true → strategy (self st) = Some s →
  add_module C args st =
  (inr (),
   scoped s (CSuperAddModule args)
     (retraced (super_add_module C (in_scope s st) args (tfstate st)).1)
     (super_add_module C (in_scope s st) args (tfstate st)).2 st).
Proof.
  intros Hdist Hs. unfold add_module, get_strategy.
  rewrite run_get_self, Hdist. do 2 rewrite run_bind. rewrite run_get_self, Hs.
  simpl.
  rewrite with_scope_add_module. by rewrite retrace_run.
Qed.

Lemma remove_module_distributed module_id st s :
  distributed (self st) = true → strategy (self st) = Some s →
  remove_module C module_id st =
  (inr (),
   scoped s (CSuperRemoveModule module_id)
     (retraced (super_remove_module C (in_scope s st) module_id (tfstate st)).1)
     (super_remove_module C (in_scope s st) module_id (tfstate st)).2 st).
Proof.
  intros Hdist Hs. unfold remove_module, get_strategy.
  rewrite run_get_self, Hdist. do 2 rewrite run_bind. rewrite run_get_self, Hs.
  simpl.
  rewrite with_scope_remove_module. by rewrite retrace_run.
Qed.

Lemma add_module_no_strategy args st :
  distributed (self st) = true → strategy (self st) = None →
  add_module C args st = (inl (AttributeError "strategy"), st).
Proof.
  intros Hdist Hs. unfold add_module, get_strategy.
  rewrite run_get_self, Hdist. do 2 rewrite run_bind.
  by rewrite run_get_self, Hs.
Qed.

Lemma remove_module_no_strategy module_id st :
  distributed (self st) = true → strategy (self st) = None →
  remove_module C module_id st = (inl (AttributeError "strategy"), st).
Proof.
  intros Hdist Hs. unfold remove_module, get_strategy.
  rewrite run_get_self, Hdist. do 2 rewrite run_bind.
  by rewrite run_get_self, Hs.
Qed.

Lemma make_distributed_run st :
  let new := MultiWorkerMirroredStrategy C (env_of st) (tfstate st) in
  let st1 :=
    set_self (set_strategy new.1 (self st))
      (add_log [entry (kind <$> ctx st) (CMultiWorkerMirroredStrategy new.1)]
         (set_tfstate new.2 st)) in
  _make_distributed C st =
  (inr (make_module C (in_scope new.1 st1) new.2).1,
   scoped new.1 (CMakeModule (make_module C (in_scope new.1 st1) new.2).1)
     (self st1) (make_module C (in_scope new.1 st1) new.2).2 st1).
Proof.
  intros new st1. unfold _make_distributed.
  rewrite run_bind, call_run. fold new.
  rewrite record_not_op by done. rewrite run_get_self.
  rewrite run_bind. unfold put_self at 1.
  change (set_self _ _) with st1.
  unfold get_strategy. rewrite run_bind, run_get_self. simpl.
  rewrite run_bind_ret. unfold with_scope, _make_module. rewrite call_run.
  reflexivity.
Qed.

Lemma logged_scoped {A} (m : M A) st r s c tr tf :
  m st = (r, scoped s c tr tf st) →
  logged m st = [entry (InScope s :: (kind <$> ctx st)) c].
Proof.
  intros Hm. unfold logged. rewrite Hm. simpl.
  by rewrite drop_app_length.
Qed.

Lemma logged_unchanged {A} (m : M A) st r : m st = (r, st) → logged m st = [].
Proof. intros Hm. unfold logged. rewrite Hm. simpl. apply drop_all. Qed.

(** C8. In a distributed trainer every module is created and removed
    inside the scope of the mirrored strategy: [add_module] and
    [remove_module] call the base class inside the scope of
    [self.strategy] (and do nothing when there is none), and
    [_make_distributed] calls [_make_module] inside the scope of the
    strategy it has just created and stored in [self.strategy].  The
    collaborator is told so, and no call that creates or removes a
    module is logged outside a scope. *)
Theorem module_lifecycle_in_scope st :
  distributed (self st) = true →
  (∀ s, strategy (self st) = Some s →
     (∀ args,
        add_module C args st =
        (inr (),
         scoped s (CSuperAddModule args)
           (retraced (super_add_module C (in_scope s st) args (tfstate st)).1)
           (super_add_module C (in_scope s st) args (tfstate st)).2 st)) ∧
     (∀ module_id,
        remove_module C module_id st =
        (inr (),
         scoped s (CSuperRemoveModule module_id)
           (retraced
              (super_remove_module C (in_scope s st) module_id (tfstate st)).1)
           (super_remove_module C (in_scope s st) module_id (tfstate st)).2
           st))) ∧
  (strategy (self st) = None →
     (∀ args, add_module C args st = (inl (AttributeError "strategy"), st)) ∧
     (∀ module_id,
        remove_module C module_id st = (inl (AttributeError "strategy"), st))) ∧
  (let new := MultiWorkerMirroredStrategy C (env_of st) (tfstate st) in
   let st1 :=
     set_self (set_strategy new.1 (self st))
       (add_log [entry (kind <$> ctx st) (CMultiWorkerMirroredStrategy new.1)]
          (set_tfstate new.2 st)) in
   strategy (self st1) = Some new.1 ∧
   _make_distributed C st =
   (inr (make_module C (in_scope new.1 st1) new.2).1,
    scoped new.1 (CMakeModule (make_module C (in_scope new.1 st1) new.2).1)
      (self st1) (make_module C (in_scope new.1 st1) new.2).2 st1)) ∧
  (∀ e,
     (∃ args, e ∈ logged (add_module C args) st) ∨
     (∃ module_id, e ∈ logged (remove_module C module_id) st) ∨
     e ∈ logged (_make_distributed C) st →
     module_lifecycle (e_call e) = true →
     ∃ s, e_ctx e = InScope s :: (kind <$> ctx st)).
Proof.
  intros Hdist. split_and!.
  - intros s Hs. split.
    + intros args. by apply add_module_distributed.
    + intros module_id. by apply remove_module_distributed.
  - intros Hs. split.
    + intros args. by apply add_module_no_strategy.
    + intros module_id. by apply remove_module_no_strategy.
  - split; [reflexivity|]. apply make_distributed_run.
  - intros e Hin Hlife.
    destruct (strategy (self st)) as [s|] eqn:Hs.
    + destruct Hin as [[args Hin]|[[module_id Hin]|Hin]].
      * rewrite (logged_scoped _ _ _ _ _ _ _
          (add_module_distributed args st s Hdist Hs)) in Hin.
        apply list_elem_of_singleton in Hin as ->. by exists s.
      * rewrite (logged_scoped _ _ _ _ _ _ _
          (remove_module_distributed module_id st s Hdist Hs)) in Hin.
        apply list_elem_of_singleton in Hin as ->. by exists s.
      * unfold logged in Hin. rewrite make_distributed_run in Hin.
        simpl in Hin. rewrite <- app_assoc, drop_app_length in Hin.
        apply elem_of_cons in Hin as [->|Hin]; [done|].
        apply list_elem_of_singleton in Hin as ->. by eexists.
    + destruct Hin as [[args Hin]|[[module_id Hin]|Hin]].
      * rewrite (logged_unchanged _ _ _
          (add_module_no_strategy args st Hdist Hs)) in Hin.
        by apply elem_of_nil in Hin.
      * rewrite (logged_unchanged _ _ _
          (remove_module_no_strategy module_id st Hdist Hs)) in Hin.
        by apply elem_of_nil in Hin.
      * unfold logged in Hin. rewrite make_distributed_run in Hin.
        simpl in Hin. rewrite <- app_assoc, drop_app_length in Hin.
        apply elem_of_cons in Hin as [->|Hin]; [done|].
        apply list_elem_of_singleton in Hin as ->. by eexists.
Qed.

(** * Further properties of the methods *)

(** ** [apply_gradients] *)





Lemma apply_loop_app gradients pre items plan_pre st :
  mapM (plan_item (self st) gradients) pre = Some plan_pre →
  for_each (pre ++ items) (apply_gradients_step C gradients) st =
  for_each items (apply_gradients_step C gradients) (applied C st plan_pre).
Proof.
  revert plan_pre st. induction pre as [|item pre IH]; intros plan_pre st Hplan;
    simpl in *.
  - injection Hplan as <-. unfold applied; simpl.
    by rewrite app_nil_r, state_eta.
  - destruct (plan_item _ _ item) as [p|] eqn:Hp; [|done]. simpl in Hplan.
    destruct (mapM _ pre) as [plan'|] eqn:Hplan'; [|done].
    injection Hplan as <-.
    rewrite (run_bind_inr _ _ _ _ _ (apply_gradients_step_Some _ _ _ _ Hp)).
    rewrite (IH plan') by done. by rewrite applied_cons.
Qed.

Lemma apply_gradients_step_missing gradients item st :
  plan_item (self st) gradients item = None →
  ∃ r, r ∈ item.2 ∧
       (_params (self st) !! r = None ∨ gradients !! r = None) ∧
       (mapM (λ r, _params (self st) !! r) item.2 = None →
        _params (self st) !! r = None) ∧
       apply_gradients_step C gradients item st = (inl (KeyError (KRef r)), st).
Proof.
  destruct item as [optim refs]. unfold plan_item; simpl. intros Hp.
  rewrite run_get_self.
  destruct (mapM (λ r, _params (self st) !! r) refs) as [vl|] eqn:Hvl.
  - destruct (mapM (λ r, gradients !! r) refs) as [gl|] eqn:Hgl; [done|].
    destruct (comprehension_getitem_None _ _ st Hgl) as (r & Hin & Hr & Hrun).
    exists r. split_and!; [done|by right|done|].
    rewrite (run_bind_inr _ _ _ vl st) by by apply comprehension_getitem_Some.
    by rewrite (run_bind_inl _ _ _ _ _ Hrun).
  - destruct (comprehension_getitem_None _ _ st Hvl) as (r & Hin & Hr & Hrun).
    exists r. split_and!; [done|by left|done|].
    by rewrite (run_bind_inl _ _ _ _ _ Hrun).
Qed.

(** X2. [apply_gradients] is not atomic.  When an optimizer owns a
    parameter reference that [self._params] or the gradients do not
    have, it raises the [KeyError] of such a reference, of one missing
    from [self._params] if there is any, and the optimizers that come
    before in [self._optim_to_param] have already been applied. *)
Theorem apply_gradients_partial gradients st pre item post plan_pre :
  _optim_to_param (self st) = pre ++ item :: post →
  mapM (plan_item (self st) gradients) pre = Some plan_pre →
  plan_item (self st) gradients item = None →
  ∃ r,
    r ∈ item.2 ∧
    (_params (self st) !! r = None ∨ gradients !! r = None) ∧
    (mapM (λ r, _params (self st) !! r) item.2 = None →
     _params (self st) !! r = None) ∧
    apply_gradients C gradients st =
    (inl (KeyError (KRef r)), applied C st plan_pre).
Proof.
  intros Hitems Hpre Hitem.
  destruct (apply_gradients_step_missing gradients item (applied C st plan_pre))
    as (r & Hin & Hmiss & Hfirst & Hrun); [done|].
  exists r. split_and!; try done.
  unfold apply_gradients. rewrite run_get_self, Hitems.
  rewrite (apply_loop_app _ _ _ _ _ Hpre). simpl.
  by rewrite (run_bind_inl _ _ _ _ _ Hrun).
Qed.

Lemma comprehension_getitem_agree {V} (d1 d2 : gmap positive V) refs st :
  (∀ r, r ∈ refs → d1 !! r = d2 !! r) →
  comprehension (getitem KRef d1) refs st
  = comprehension (getitem KRef d2) refs st.
Proof.
  induction refs as [|r refs IH]; intros Hagree; [done|].
  simpl. assert (H1 : d1 !! r = d2 !! r) by apply Hagree, list_elem_of_here.
  destruct (d2 !! r) as [v|] eqn:H2.
  - rewrite (run_bind_inr _ _ _ v st (getitem_Some KRef d1 r v st H1)).
    rewrite (run_bind_inr _ _ _ v st (getitem_Some KRef d2 r v st H2)).
    rewrite !run_bind, IH; [done|].
    intros r' Hr'. apply Hagree. by apply list_elem_of_further.
  - rewrite (run_bind_inl _ _ _ _ st (getitem_None KRef d1 r st H1)).
    by rewrite (run_bind_inl _ _ _ _ st (getitem_None KRef d2 r st H2)).
Qed.

Lemma apply_gradients_step_agree g1 g2 item st :
  (∀ r, r ∈ item.2 → g1 !! r = g2 !! r) →
  apply_gradients_step C g1 item st = apply_gradients_step C g2 item st.
Proof.
  destruct item as [optim refs]. simpl. intros Hagree.
  rewrite !run_get_self, !run_bind.
  destruct (comprehension (getitem KRef (_params (self st))) refs st)
    as [[e|vl] st1]; [done|].
  rewrite !run_bind.
  assert (Hst1 : comprehension (getitem KRef g1) refs st1
                 = comprehension (getitem KRef g2) refs st1)
    by by apply comprehension_getitem_agree.
  rewrite Hst1. by destruct (comprehension (getitem KRef g2) refs st1)
    as [[e|gl] st2].
Qed.

(** X3. [apply_gradients] reads the gradients of the parameters that
    an optimizer owns, and no other: two gradient dictionaries that
    agree on these are applied alike, whatever else they hold. *)
Theorem apply_gradients_only_owned g1 g2 st :
  (∀ r, owned (self st) r → g1 !! r = g2 !! r) →
  apply_gradients C g1 st = apply_gradients C g2 st.
Proof.
  unfold apply_gradients, owned. rewrite !run_get_self.
  generalize (_optim_to_param (self st)) as items.
  intros items. revert st. induction items as [|item items IH];
    intros st Hagree; [done|].
  simpl. rewrite !run_bind.
  rewrite (apply_gradients_step_agree g1 g2 item st).
  2:{ intros r Hr. apply Hagree. exists item.1, item.2.
      split; [|done]. destruct item. apply list_elem_of_here. }
  destruct (apply_gradients_step C g2 item st) as [[e|[]] st1]; [done|].
  apply IH. intros r (optim & refs & Hin & Hr). apply Hagree.
  exists optim, refs. split; [|done]. by apply list_elem_of_further.
Qed.

(** ** The outcomes of [_do_update_fn] and of [update] *)

Lemma applied_nil st : applied C st [] = st.
Proof. unfold applied; simpl. by rewrite app_nil_r, state_eta. Qed.

(** Whatever its outcome, the loop of [apply_gradients] has applied
    some optimizers and done nothing else. *)
Lemma apply_loop_state gradients items st :
  ∃ plan, (for_each items (apply_gradients_step C gradients) st).2
          = applied C st plan.
Proof.
  revert st. induction items as [|item items IH]; intros st.
  - exists []. by rewrite applied_nil.
  - simpl. destruct (plan_item (self st) gradients item) as [p|] eqn:Hp.
    + rewrite (run_bind_inr _ _ _ _ _ (apply_gradients_step_Some _ _ _ _ Hp)).
      destruct (IH (applied C st [p])) as [plan Hplan].
      exists (p :: plan). by rewrite Hplan, applied_cons.
    + destruct (apply_gradients_step_None _ _ _ Hp) as [r Hrun].
      exists []. by rewrite (run_bind_inl _ _ _ _ _ Hrun), applied_nil.
Qed.

Lemma do_update_fn_apply batch st target :
  loss_lookup (as_loss_map (cycle_loss C batch st).1) "total_loss" = Some target →
  _do_update_fn C batch st =
  (apply_gradients C (cycle_post C batch st target).1
   ≫= λ _, mret (cycle_outs C batch st target)) (before_apply C batch st target).
Proof.
  intros Htarget. unfold _do_update_fn.
  rewrite (run_bind_inr _ _ _ _ _ (tape_block_run batch st)).
  rewrite (run_bind_inr _ _ _ _ _ (compute_gradients_Some _ _ _ _ Htarget)).
  rewrite env_of_after_tape.
  change (tape_gradient C _ _ _ _ _) with (cycle_gradients C batch st target).
  rewrite run_bind, call_run, env_of_record, tfstate_record.
  change (env_of (set_tfstate _ (after_tape C batch st)))
    with (env_of (after_tape C batch st)).
  rewrite env_of_after_tape.
  change (on_after_compute_gradients C _ _ _) with (cycle_post C batch st target).
  assert (Hst : ∀ A (m : M A) s1 s2, s1 = s2 → m s1 = m s2) by (by intros; subst).
  apply Hst. apply state_ext.
  - reflexivity.
  - reflexivity.
  - reflexivity.
  - simpl. rewrite !kind_tape_record. by rewrite <- !app_assoc.
Qed.

(** The state [_do_update_fn] leaves, whatever its outcome. *)
Lemma do_update_fn_state batch st :
  (_do_update_fn C batch st).2 = after_tape C batch st ∨
  ∃ target plan,
    (_do_update_fn C batch st).2
    = applied C (before_apply C batch st target) plan.
Proof.
  destruct (loss_lookup (as_loss_map (cycle_loss C batch st).1) "total_loss")
    as [target|] eqn:Htarget.
  - right. exists target. rewrite (do_update_fn_apply _ _ _ Htarget).
    unfold apply_gradients. rewrite run_bind, run_get_self.
    destruct (apply_loop_state (cycle_post C batch st target).1
                (_optim_to_param (self (before_apply C batch st target)))
                (before_apply C batch st target)) as [plan Hplan].
    exists plan. rewrite <- Hplan.
    by destruct (for_each _ _ _) as [[e|[]] st1].
  - left. by rewrite (do_update_fn_no_total_loss _ _ Htarget).
Qed.

(** X5. Whatever happens, [_do_update_fn] changes no field of [self],
    leaves the open [with] blocks as they were (the tape it opens is
    closed again, on an exception too) and only adds to the log; and so
    does [update] on an eager trainer that is not distributed. *)
Theorem update_frame batch st :
  distributed (self st) = false →
  _update_fn (self st) = Eager →
  (let st' := (update C batch st).2 in
   self st' = self st ∧ kind <$> ctx st' = kind <$> ctx st ∧
   log st `prefix_of` log st') ∧
  (∀ b s,
     let s' := (_do_update_fn C b s).2 in
     self s' = self s ∧ kind <$> ctx s' = kind <$> ctx s ∧
     log s `prefix_of` log s').
Proof.
  intros Hdist Heager.
  assert (Hcycle : ∀ b s,
    let s' := (_do_update_fn C b s).2 in
    self s' = self s ∧ kind <$> ctx s' = kind <$> ctx s ∧
    log s `prefix_of` log s').
  { intros b s s'. unfold s'.
    destruct (do_update_fn_state b s) as [->|(target & plan & ->)].
    - split_and!; [done|apply kind_ctx_after_tape|by eexists].
    - split_and!; [done|apply kind_ctx_after_tape|].
      simpl. rewrite <- !app_assoc. by eexists. }
  split; [|done].
  destruct (decide (dom (policy_batches batch) = dom (_module (self st))))
    as [Hkeys|Hkeys].
  - rewrite update_accepted by done.
    rewrite run_bind, convert_batch_to_tf_tensor_run.
    unfold update_converted. rewrite run_get_self. simpl.
    rewrite Hdist, Heager, run_bind. simpl.
    set (st0 := add_log _ st). set (b := _ <$> _).
    destruct (Hcycle b st0) as (Hself & Hctx & [es Hlog]).
    destruct (_do_update_fn C b st0) as [[e|outs] st1] eqn:Hrun; simpl in *.
    + split_and!; [done..|]. rewrite Hlog. unfold st0; simpl.
      rewrite <- app_assoc. by eexists.
    + rewrite compile_results_run. simpl.
      split_and!; [done..|]. rewrite Hlog. unfold st0; simpl.
      rewrite <- app_assoc. by eexists.
  - by rewrite update_rejected.
Qed.



Lemma update_eager batch st :
  distributed (self st) = false →
  _update_fn (self st) = Eager →
  dom (policy_batches batch) = dom (_module (self st)) →
  update C batch st =
  (_do_update_fn C
     ((λ v, convert_to_tensor v float32) <$> NestedDict_of (policy_batches batch))
   ≫= λ update_outs,
     compile_results
       ((λ v, convert_to_tensor v float32) <$> NestedDict_of (policy_batches batch))
       (out_fwd_out update_outs) (out_loss update_outs)
       (out_post_processed_gradients update_outs))
    (add_log (convert_entries (kind <$> ctx st)
                (map_to_list (NestedDict_of (policy_batches batch)))) st).
Proof.
  intros Hdist Heager Hkeys. rewrite update_accepted by done.
  rewrite run_bind, convert_batch_to_tf_tensor_run.
  unfold update_converted. rewrite run_get_self. simpl.
  by rewrite Hdist, Heager.
Qed.


(** X6. The loss [_do_update_fn] returns is always a mapping that has
    the key ["total_loss"]: a mapping returned by [compute_loss] is
    passed on as it is, with all its keys, and a bare tensor becomes
    the one-entry mapping.  The ["loss"] entry of what an eager
    [update] returns is then such a mapping too, converted to numpy. *)
Theorem returned_loss_is_mapping batch st outs st' :
  _do_update_fn C batch st = (inr outs, st') →
  (∃ m target,
     out_loss outs = LossMap m ∧ m !! "total_loss" = Some target ∧
     (∀ m0, (cycle_loss C batch st).1 = LossMap m0 → m = m0) ∧
     (∀ t, (cycle_loss C batch st).1 = LossTensor t →
           m = {[ "total_loss" := t ]})) ∧
  (∀ b s ret s',
     distributed (self s) = false → _update_fn (self s) = Eager →
     update C b s = (inr ret, s') →
     ∃ m, ret !! "loss" = Some (RLoss (LossArrayMap m)) ∧
          is_Some (m !! "total_loss")).
Proof.
  assert (Hloss : ∀ b s o s', _do_update_fn C b s = (inr o, s') →
    ∃ m target, out_loss o = LossMap m ∧ m !! "total_loss" = Some target ∧
      as_loss_map (cycle_loss C b s).1 = LossMap m).
  { intros b s o s' Hrun. apply do_update_fn_inv in Hrun
      as (target & plan & Htarget & _ & -> & _). simpl.
    destruct (cycle_loss C b s).1 as [t|m]; simpl in *.
    - exists {[ "total_loss" := t ]}, target. by split_and!.
    - exists m, target. by split_and!. }
  intros Hrun. split.
  - destruct (Hloss _ _ _ _ Hrun) as (m & target & Hout & Hm & Has).
    exists m, target. split_and!; [done..| |].
    + intros m0 Hm0. rewrite Hm0 in Has. simpl in Has. by simplify_eq.
    + intros t Ht. rewrite Ht in Has. simpl in Has. by simplify_eq.
  - clear Hrun. intros b s ret s' Hdist Heager Hupd.
    destruct (decide (dom (policy_batches b) = dom (_module (self s))))
      as [Hkeys|Hkeys]; [|by rewrite update_rejected in Hupd].
    rewrite (update_eager _ _ Hdist Heager Hkeys), run_bind in Hupd.
    destruct (_do_update_fn C _ _) as [[e|o] s1] eqn:Hcycle; [done|].
    rewrite compile_results_run in Hupd. simplify_eq.
    destruct (Hloss _ _ _ _ Hcycle) as (m & target & Hout & Hm & _).
    exists (to_numpy <$> m). unfold results_of. rewrite Hout. split.
    + destruct (in_test (self s')); by simplify_map_eq.
    + rewrite lookup_fmap, Hm. by eexists.
Qed.

(** X7. [compile_results] reads neither the batch nor the forward
    output: the result is the same whatever they are.  It changes
    nothing, its result has the keys ["loss"] and ["mean_gradient"],
    and ["mean_weight"] under test and no other, and the mean weights
    are given for the keys of the module registry. *)
Theorem compile_results_ignores_batch batch batch' fwd_out fwd_out' loss
    gradients st :
  ∃ ret,
    compile_results batch fwd_out loss gradients st = (inr ret, st) ∧
    compile_results batch' fwd_out' loss gradients st = (inr ret, st) ∧
    dom ret =
      {[ "loss"; "mean_gradient" ]} ∪
      (if in_test (self st) then {[ "mean_weight" ]} else ∅) ∧
    (∀ ws, ret !! "mean_weight" = Some (RMeanWeights ws) →
           dom ws = dom (_module (self st))).
Proof.
  eexists. split; [apply compile_results_run|].
  split; [apply compile_results_run|].
  unfold results_of. destruct (in_test (self st)); split.
  - rewrite !dom_insert_L, dom_singleton_L. set_solver.
  - intros ws Hws. rewrite lookup_insert_eq in Hws. simplify_eq.
    apply dom_fmap_L.
  - rewrite !dom_insert_L, dom_singleton_L. set_solver.
  - intros ws Hws. by simplify_map_eq.
Qed.

(** X8. [compute_gradients] returns exactly when its loss is a mapping
    that has the key ["total_loss"].  Otherwise it raises, for a
    mapping the [KeyError] of that key, before [tape.gradient] is
    called: nothing is logged and nothing has changed. *)
Theorem compute_gradients_returns loss tape st :
  ((∃ grads st', compute_gradients C loss tape st = (inr grads, st')) ↔
   is_Some (loss_lookup loss "total_loss")) ∧
  (loss_lookup loss "total_loss" = None →
   ∃ e, compute_gradients C loss tape st = (inl e, st) ∧
        (∀ m, loss = LossMap m → e = KeyError (KStr "total_loss"))).
Proof.
  assert (Hnone : loss_lookup loss "total_loss" = None →
    ∃ e, compute_gradients C loss tape st = (inl e, st) ∧
         (∀ m, loss = LossMap m → e = KeyError (KStr "total_loss"))).
  { intros Hl. unfold compute_gradients. destruct loss as [t|m]; simpl in *.
    - eexists. split; [reflexivity|done].
    - eexists. split; [|done].
      by rewrite (run_bind_inl _ _ _ _ st (getitem_None KStr m _ st Hl)). }
  split; [|done]. split.
  - intros (grads & st' & Hrun).
    destruct (loss_lookup loss "total_loss") eqn:Hl; [by eexists|].
    destruct (Hnone eq_refl) as (e & Heq & _). by rewrite Heq in Hrun.
  - intros [target Htarget]. eexists _, _.
    by apply compute_gradients_Some.
Qed.

(** ** The module lifecycle outside a strategy *)

Lemma add_module_run_local args st :
  distributed (self st) = false →
  add_module C args st =
  (inr (),
   {| self := retraced (super_add_module C (env_of st) args (tfstate st)).1;
      tfstate := (super_add_module C (env_of st) args (tfstate st)).2;
      ctx := ctx st;
      log := log st ++ [entry (kind <$> ctx st) (CSuperAddModule args)] |}).
Proof.
  intros Hdist. unfold add_module. rewrite run_get_self, Hdist, run_bind.
  unfold RLTrainer_add_module. rewrite run_bind, call_run. simpl.
  rewrite retrace_run. by destruct (super_add_module C _ _ _).
Qed.

Lemma remove_module_run_local module_id st :
  distributed (self st) = false →
  remove_module C module_id st =
  (inr (),
   {| self :=
        retraced (super_remove_module C (env_of st) module_id (tfstate st)).1;
      tfstate := (super_remove_module C (env_of st) module_id (tfstate st)).2;
      ctx := ctx st;
      log := log st ++ [entry (kind <$> ctx st) (CSuperRemoveModule module_id)] |}).
Proof.
  intros Hdist. unfold remove_module. rewrite run_get_self, Hdist, run_bind.
  unfold RLTrainer_remove_module. rewrite run_bind, call_run. simpl.
  rewrite retrace_run. by destruct (super_remove_module C _ _ _).
Qed.


(** The trainer a lifecycle method leaves is the one the base class
    left, wrapped again. *)
Lemma add_module_self args st st' :
  add_module C args st = (inr (), st') →
  ∃ env tf, env_self env = self st ∧
            self st' = retraced (super_add_module C env args tf).1.
Proof.
  destruct (distributed (self st)) eqn:Hdist.
  - destruct (strategy (self st)) as [s|] eqn:Hs.
    + rewrite (add_module_distributed _ _ _ Hdist Hs). intros ?; simplify_eq.
      by exists (in_scope s st), (tfstate st).
    + by rewrite (add_module_no_strategy _ _ Hdist Hs).
  - rewrite (add_module_run_local _ _ Hdist). intros ?; simplify_eq.
    by exists (env_of st), (tfstate st).
Qed.

Lemma remove_module_self module_id st st' :
  remove_module C module_id st = (inr (), st') →
  ∃ env tf, env_self env = self st ∧
            self st' = retraced (super_remove_module C env module_id tf).1.
Proof.
  destruct (distributed (self st)) eqn:Hdist.
  - destruct (strategy (self st)) as [s|] eqn:Hs.
    + rewrite (remove_module_distributed _ _ _ Hdist Hs). intros ?; simplify_eq.
      by exists (in_scope s st), (tfstate st).
    + by rewrite (remove_module_no_strategy _ _ Hdist Hs).
  - rewrite (remove_module_run_local _ _ Hdist). intros ?; simplify_eq.
    by exists (env_of st), (tfstate st).
Qed.

Lemma retraced_flag tr :
  _enable_tf_function (retraced tr) = _enable_tf_function tr.
Proof. unfold retraced. by destruct (_enable_tf_function tr) eqn:Hf. Qed.

Lemma retraced_consistent tr :
  (_enable_tf_function tr = false → consistent tr) → consistent (retraced tr).
Proof.
  unfold consistent, retraced.
  destruct (_enable_tf_function tr) eqn:Hf; simpl.
  - intros _. by rewrite Hf.
  - intros Htr. rewrite Hf. rewrite Htr by done. done.
Qed.

(** X10. [__init__] makes [self._update_fn] the [tf.function] wrapper
    exactly when [enable_tf_function] is set, and [add_module] and
    [remove_module] keep it so as long as the base class does: when
    they return, a trainer with the flag set has a fresh wrapper,
    whatever the base class left in [self._update_fn], and a trainer
    without it has the function the base class left. *)
Theorem update_fn_follows_flag :
  (∀ cls kwargs config (distributed_arg in_test_arg enable_arg : bool),
     consistent
       (__init__ cls kwargs config distributed_arg in_test_arg enable_arg)) ∧
  (∀ args st st',
     add_module C args st = (inr (), st') →
     (_enable_tf_function (self st') = true →
      _update_fn (self st') = TfFunction) ∧
     ((∀ env tf, env_self env = self st →
                 consistent (super_add_module C env args tf).1) →
      consistent (self st'))) ∧
  (∀ module_id st st',
     remove_module C module_id st = (inr (), st') →
     (_enable_tf_function (self st') = true →
      _update_fn (self st') = TfFunction) ∧
     ((∀ env tf, env_self env = self st →
                 consistent (super_remove_module C env module_id tf).1) →
      consistent (self st'))).
Proof.
  split_and!.
  - intros cls kwargs config d t e. unfold consistent. by destruct e.
  - intros args st st' Hrun.
    destruct (add_module_self _ _ _ Hrun) as (env & tf & Henv & ->). split.
    + intros Hflag. rewrite retraced_flag in Hflag.
      unfold retraced. by rewrite Hflag.
    + intros Hbase. apply retraced_consistent. intros _. by apply Hbase.
  - intros module_id st st' Hrun.
    destruct (remove_module_self _ _ _ Hrun) as (env & tf & Henv & ->). split.
    + intros Hflag. rewrite retraced_flag in Hflag.
      unfold retraced. by rewrite Hflag.
    + intros Hbase. apply retraced_consistent. intros _. by apply Hbase.
Qed.

(** ** The strategy *)

(** X11. On a distributed trainer whose [self.strategy] does not exist
    yet, [update] raises an [AttributeError] for a batch it accepts: the
    batch has been converted, and nothing else has been called. *)
Theorem update_without_strategy batch st :
  distributed (self st) = true →
  strategy (self st) = None →
  dom (policy_batches batch) = dom (_module (self st)) →
  update C batch st =
  (inl (AttributeError "strategy"),
   add_log (convert_entries (kind <$> ctx st)
              (map_to_list (NestedDict_of (policy_batches batch)))) st).
Proof.
  intros Hdist Hs Hkeys. rewrite update_accepted by done.
  rewrite run_bind, convert_batch_to_tf_tensor_run.
  unfold update_converted. rewrite run_get_self. simpl. rewrite Hdist.
  rewrite run_bind. by rewrite do_distributed_update_None.
Qed.


(** ** The conversion of the batch *)



(** ** The optimizers *)

(** X14. The pairs of [configure_optimizers] are those of the
    registered modules, and of them only: each holds the parameters
    [get_parameters] gives for a module and the optimizer
    [get_optimizer_obj] builds for that module and the class Adam.
    Neither method changes anything. *)
Theorem configure_optimizers_pairs st :
  ∃ pairs,
    configure_optimizers st = (inr pairs, st) ∧
    (∀ vars optim,
       (vars, optim) ∈ pairs ↔
       ∃ key m,
         _module (self st) !! key = Some m ∧
         vars = get_parameters m ∧
         get_optimizer_obj m Adam st = (inr optim, st)) ∧
    (_module (self st) = ∅ → pairs = []).
Proof.
  eexists. split; [apply configure_optimizers_run|]. split.
  - intros vars optim. rewrite list_elem_of_fmap. split.
    + intros ([key m] & Heq & Hin). apply elem_of_map_to_list in Hin.
      simplify_eq/=. by exists key, m.
    + intros (key & m & Hm & -> & Hopt). exists (key, m). split.
      * unfold get_optimizer_obj in Hopt. rewrite run_get_self in Hopt.
        injection Hopt as <-. reflexivity.
      * by apply elem_of_map_to_list.
  - intros ->. by rewrite map_to_list_empty.
Qed.

End Proofs.

(** * The methods on the small framework *)

Section ToyRuns.
#[local] Existing Instance Toy.framework.

(** The calls of one eager update, in order, and the [with] blocks
    around each. *)
Example eager_update_trace :
  (λ e, (call_name (e_call e), e_ctx e))
    <$> log (update Toy.collaborators Toy.batch Toy.eager).2 =
  [("tf.convert_to_tensor", []); ("tf.convert_to_tensor", []);
   ("forward_train", [InTape]); ("compute_loss", [InTape]);
   ("tape.gradient", []); ("on_after_compute_gradients", []);
   ("optim.apply_gradients", [])].
Proof. reflexivity. Qed.

(** A rejected batch leaves the log empty. *)
Example rejected_update_trace :
  log (update Toy.collaborators Toy.other_batch Toy.eager).2 = [].
Proof. reflexivity. Qed.

(** The module of a distributed trainer is made inside the scope. *)
Example make_distributed_trace :
  (λ e, (call_name (e_call e), e_ctx e))
    <$> log (_make_distributed Toy.collaborators Toy.mirrored).2 =
  [("MultiWorkerMirroredStrategy", []); ("_make_module", [InScope 7%nat])].
Proof. reflexivity. Qed.



Lemma configure_optimizers_per_module_witness :
  ∃ pairs,
    configure_optimizers Toy.eager = (inr pairs, Toy.eager) ∧
    pairs = [([1%positive; 2%positive],
              {| opt_cls := Adam; learning_rate := PyFloat 1 (-3) |})].
Proof.
  destruct (configure_optimizers_per_module Toy.eager)
    as [(pairs & Hrun & _) _].
  exists pairs. split; [exact Hrun|].
  vm_compute in Hrun. by injection Hrun as <-.
Defined.

Lemma update_dispatch_witness :
  dom (policy_batches Toy.batch) = dom (_module (self Toy.mirrored)) ∧
  ∃ r st', update Toy.collaborators Toy.batch Toy.mirrored = (inr r, st').
Proof.
  split; [reflexivity|].
  destruct (update_dispatch Toy.collaborators Toy.batch Toy.mirrored eq_refl)
    as ([Hupd _] & _); [reflexivity|].
  eexists _, _. rewrite Hupd. reflexivity.
Defined.

Lemma compile_results_entries_witness :
  ∃ ret,
    compile_results ∅ Toy.fwd_out Toy.bare_loss Toy.gradients Toy.eager
      = (inr ret, Toy.eager) ∧
    ret !! "mean_gradient" = Some (RScalar (3 : Scalar)) ∧
    is_Some (ret !! "mean_weight").
Proof.
  destruct (compile_results_entries ∅ Toy.fwd_out Toy.bare_loss Toy.gradients
              Toy.eager)
    as (ret & Hrun & _ & Hgrad & Hweight & _).
  exists ret. split; [exact Hrun|]. split; [exact Hgrad|].
  apply Hweight. reflexivity.
Defined.

Lemma compute_gradients_of_total_loss_witness :
  loss_lookup Toy.loss_map "total_loss" = Some (Toy.tensor 5) ∧
  (compute_gradients Toy.collaborators Toy.loss_map [] Toy.eager).1
    = inr ({[ 1%positive := Toy.tensor 5; 2%positive := Toy.tensor 5 ]}
             : gmap positive Tensor).
Proof.
  split; [reflexivity|].
  rewrite (proj1 (compute_gradients_of_total_loss Toy.collaborators
                    Toy.loss_map [] (Toy.tensor 5) Toy.eager eq_refl)).
  reflexivity.
Defined.

Lemma module_lifecycle_in_scope_witness :
  distributed (self Toy.mirrored) = true ∧
  log (add_module Toy.collaborators Toy.args Toy.mirrored).2
    = [entry [InScope 7%nat] (CSuperAddModule Toy.args)].
Proof.
  split; [reflexivity|].
  destruct (module_lifecycle_in_scope Toy.collaborators Toy.mirrored eq_refl)
    as (Hscope & _).
  destruct (Hscope 7%nat eq_refl) as [Hadd _].
  rewrite Hadd. reflexivity.
Defined.

Lemma total_loss_lookup_succeeds_witness :
  match (cycle_loss Toy.collaborators ∅ Toy.eager).1 with
  | LossTensor _ => True
  | LossMap m => is_Some (m !! "total_loss")
  end ∧
  ∀ e st', _do_update_fn Toy.collaborators ∅ Toy.eager = (inl e, st') →
           ∃ r, e = KeyError (KRef r).
Proof.
  split; [exact I|].
  apply (total_loss_lookup_succeeds Toy.collaborators ∅ Toy.eager I).
Defined.

Lemma convert_batch_to_tf_tensor_float32_witness :
  ∃ converted st',
    convert_batch_to_tf_tensor Toy.batch Toy.eager = (inr converted, st') ∧
    converted !! ("agent", "obs") = Some (Toy.tensor 3) ∧
    converted !! ("agent", "rewards") = Some (Toy.tensor 4).
Proof.
  destruct (convert_batch_to_tf_tensor_float32 Toy.collaborators Toy.batch
              Toy.eager) as (converted & st' & Hrun & Hleaf & _).
  exists converted, st'. split; [exact Hrun|].
  rewrite !Hleaf. split; reflexivity.
Defined.

Lemma apply_gradients_partial_witness :
  _optim_to_param (self Toy.two_optimizers)
    = [(Toy.adam, [1%positive])] ++ (Toy.adam, [2%positive]) :: [] ∧
  mapM (plan_item (self Toy.two_optimizers) Toy.partial_gradients)
    [(Toy.adam, [1%positive])]
    = Some [(Toy.adam, [(Toy.tensor 2, 1%positive)])] ∧
  plan_item (self Toy.two_optimizers) Toy.partial_gradients
    (Toy.adam, [2%positive]) = None ∧
  ∃ r st',
    apply_gradients Toy.collaborators Toy.partial_gradients Toy.two_optimizers
      = (inl (KeyError (KRef r)), st') ∧
    tfstate st' !! 1%positive = Some 8 ∧
    length (log st') = 1%nat.
Proof.
  split; [reflexivity|]. split; [reflexivity|]. split; [reflexivity|].
  destruct (apply_gradients_partial Toy.collaborators Toy.partial_gradients
              Toy.two_optimizers [(Toy.adam, [1%positive])]
              (Toy.adam, [2%positive]) []
              [(Toy.adam, [(Toy.tensor 2, 1%positive)])]
              eq_refl eq_refl eq_refl) as (r & _ & _ & _ & Hrun).
  exists r. eexists. split; [exact Hrun|]. split; reflexivity.
Defined.

Lemma apply_gradients_only_owned_witness :
  (∀ r, owned (self Toy.eager) r →
        Toy.gradients !! r = Toy.more_gradients !! r) ∧
  apply_gradients Toy.collaborators Toy.gradients Toy.eager
    = apply_gradients Toy.collaborators Toy.more_gradients Toy.eager.
Proof.
  assert (Hagree : ∀ r, owned (self Toy.eager) r →
                        Toy.gradients !! r = Toy.more_gradients !! r).
  { intros r (optim & refs & Hin & Hr).
    simpl in Hin. apply list_elem_of_singleton in Hin. injection Hin as _ ->.
    apply elem_of_cons in Hr as [->|Hr]; [reflexivity|].
    apply list_elem_of_singleton in Hr as ->. reflexivity. }
  split; [exact Hagree|].
  exact (apply_gradients_only_owned Toy.collaborators Toy.gradients
           Toy.more_gradients Toy.eager Hagree).
Defined.


Lemma update_frame_witness :
  distributed (self Toy.eager) = false ∧
  _update_fn (self Toy.eager) = Eager ∧
  self (update Toy.collaborators Toy.batch Toy.eager).2 = self Toy.eager.
Proof.
  split; [reflexivity|]. split; [reflexivity|].
  apply (update_frame Toy.collaborators Toy.batch Toy.eager eq_refl eq_refl).
Defined.

Lemma returned_loss_is_mapping_witness :
  ∃ outs st',
    _do_update_fn Toy.collaborators ∅ Toy.eager = (inr outs, st') ∧
    ∃ m target, out_loss outs = LossMap m ∧ m !! "total_loss" = Some target.
Proof.
  eexists _, _. split; [reflexivity|].
  destruct (returned_loss_is_mapping Toy.collaborators ∅ Toy.eager _ _ eq_refl)
    as [(m & target & Hout & Hm & _) _].
  by exists m, target.
Defined.


Lemma update_without_strategy_witness :
  distributed (self Toy.unbuilt) = true ∧
  strategy (self Toy.unbuilt) = None ∧
  dom (policy_batches Toy.batch) = dom (_module (self Toy.unbuilt)) ∧
  (update Toy.collaborators Toy.batch Toy.unbuilt).1
    = inl (AttributeError "strategy").
Proof.
  split; [reflexivity|]. split; [reflexivity|]. split; [reflexivity|].
  by rewrite (update_without_strategy Toy.collaborators Toy.batch Toy.unbuilt
                eq_refl eq_refl eq_refl).
Defined.

End ToyRuns.
